(** * Healthcare data quality checker: a shallow embedding of
      [scripts/quality_checker.py] and the properties of its rule engine.

    The five SQL queries are embedded as functions over in-memory tables
    (SQL NULL is [None], a SQL boolean is [option bool], only rows whose
    WHERE clause is TRUE are kept).  The Python methods are embedded in a
    state-and-exception monad over the checker object. *)

From Stdlib Require Import List String Ascii ZArith QArith Qabs Bool Lia.
From Stdlib Require Import Permutation Sorted DecimalString.
Import ListNotations.

Local Close Scope Q_scope.
Local Open Scope list_scope.
Local Open Scope string_scope.

(** ** SQL values and three-valued logic *)

Module Sql.

(** A SQL boolean: TRUE, FALSE or NULL. *)
Definition sbool := option bool.

Definition and3 (a b : sbool) : sbool :=
  match a, b with
  | Some false, _ | _, Some false => Some false
  | Some true, Some true => Some true
  | _, _ => None
  end.

Definition or3 (a b : sbool) : sbool :=
  match a, b with
  | Some true, _ | _, Some true => Some true
  | Some false, Some false => Some false
  | _, _ => None
  end.

(** [x IS NULL] and [x IS NOT NULL] are never NULL themselves. *)
Definition is_null {A} (x : option A) : sbool :=
  match x with None => Some true | Some _ => Some false end.

Definition is_not_null {A} (x : option A) : sbool :=
  match x with None => Some false | Some _ => Some true end.

(** A comparison is NULL as soon as one operand is. *)
Definition cmp {A} (op : A -> A -> bool) (x y : option A) : sbool :=
  match x, y with
  | Some a, Some b => Some (op a b)
  | _, _ => None
  end.

(** A WHERE or HAVING clause keeps a row only when it evaluates to TRUE. *)
Definition holds (c : sbool) : bool :=
  match c with Some true => true | _ => false end.

(** [CASE WHEN c THEN v END]: NULL unless [c] is TRUE. *)
Definition case_when {A} (c : sbool) (v : A) : option A :=
  if holds c then Some v else None.

(** [ARRAY_REMOVE(arr, NULL)]. *)
Fixpoint array_remove_null {A} (arr : list (option A)) : list A :=
  match arr with
  | [] => []
  | None :: t => array_remove_null t
  | Some v :: t => v :: array_remove_null t
  end.

(** [COALESCE(x, d)]. *)
Definition coalesce {A} (x : option A) (d : A) : A :=
  match x with Some v => v | None => d end.

(** [NULLIF(x, 0)] on a numeric. *)
Definition nullif_zero (x : option Q) : option Q :=
  match x with
  | Some v => if Qeq_bool v 0 then None else Some v
  | None => None
  end.

(** Binary arithmetic propagates NULL. *)
Definition lift2 {A B C} (f : A -> B -> C) (x : option A) (y : option B)
  : option C :=
  match x, y with
  | Some a, Some b => Some (f a b)
  | _, _ => None
  end.

Definition lift1 {A B} (f : A -> B) (x : option A) : option B :=
  match x with Some a => Some (f a) | None => None end.

(** [SUM] skips NULL inputs and is NULL when no non-NULL input is left. *)
Definition sum (xs : list (option Q)) : option Q :=
  match array_remove_null xs with
  | [] => None
  | v :: vs => Some (fold_left Qplus vs v)
  end.

(** [COUNT(col)] counts the non-NULL inputs. *)
Definition count {A} (xs : list (option A)) : nat :=
  List.length (array_remove_null xs).

(** [ROUND(x, 2)] on a numeric: half away from zero. *)
Definition round2 (x : Q) : Q :=
  let a := (Qabs x * 100)%Q in
  let n := ((Qnum a * 2 + Z.pos (Qden a)) / (2 * Z.pos (Qden a)))%Z in
  if Qle_bool 0 x then (n # 100)%Q else ((- n) # 100)%Q.

(** Strict order on numerics. *)
Definition Qlt_bool (x y : Q) : bool := negb (Qle_bool y x).

(** [IS NOT DISTINCT FROM], the equality [GROUP BY] groups with: two NULLs
    fall in one group. *)
Definition not_distinct {A} (eqb : A -> A -> bool) (x y : option A) : bool :=
  match x, y with
  | Some a, Some b => eqb a b
  | None, None => true
  | _, _ => false
  end.

End Sql.

(** ** Grouping and ordering of rows *)

Section Rows.

Context {A : Type}.

(** One representative per class of [same], the first of each class in
    table order. *)
Fixpoint representatives (same : A -> A -> bool) (rows : list A) : list A :=
  match rows with
  | [] => []
  | r :: rs =>
      r :: filter (fun x => negb (same r x)) (representatives same rs)
  end.

(** [GROUP BY]: the classes of [same], each as its first row and all its
    members in table order. *)
Definition group_by (same : A -> A -> bool) (rows : list A)
  : list (A * list A) :=
  map (fun r => (r, filter (same r) rows)) (representatives same rows).

(** Insertion of a row at a position, at the end when the position is past
    the end. *)
Definition place (n : nat) (x : A) (l : list A) : list A :=
  (firstn n l ++ x :: skipn n l)%list.

(** The order in which the executor holds the rows before it sorts them,
    chosen position by position: [pick] stands for that choice, and every
    permutation of the rows is the arrangement of some [pick]. *)
Definition arrange (pick : nat -> nat) (rows : list A) : list A :=
  fold_right (fun x acc => place (pick (List.length acc)) x acc) [] rows.

(** Insertion of a row into a list ordered by [before]: past the rows that
    sort strictly before it, so that rows that compare equal stay in the
    order they arrive in. *)
Fixpoint insert_row (before : A -> A -> bool) (x : A) (l : list A) : list A :=
  match l with
  | [] => [x]
  | y :: t => if before y x then y :: insert_row before x t else x :: y :: t
  end.

(** [ORDER BY]: [before x y] says that [x] sorts strictly before [y].  SQL
    leaves the order of the rows that tie open: they come in the order of
    the executor's arrangement, so that every sorted permutation of the rows
    is the result for some [pick]. *)
Definition order_by (pick : nat -> nat) (before : A -> A -> bool)
  (rows : list A) : list A :=
  fold_right (insert_row before) [] (arrange pick rows).

End Rows.

(** ** The checks *)

(** The keys of [results['checks']], in the order of the dict literal. *)
Inductive check_key :=
| patient_completeness
| claims_discrepancies
| temporal_anomalies
| duplicate_records
| provider_credentials.

Definition check_key_eqb (a b : check_key) : bool :=
  match a, b with
  | patient_completeness, patient_completeness
  | claims_discrepancies, claims_discrepancies
  | temporal_anomalies, temporal_anomalies
  | duplicate_records, duplicate_records
  | provider_credentials, provider_credentials => true
  | _, _ => false
  end.

(** ** Floating-point cells

    [pd.read_sql_query] turns the NUMERIC cells of a result into float64,
    and the script compares, formats and adds them as such.  What float64
    arithmetic gives is not computed here: it is taken from [ops], for any
    behaviour of which the properties below hold. *)

Module Float64.

Inductive value :=
| finite (q : Q)
| infinite (negative : bool)
| nan.

Record ops := {
  (** [f"{x:.2f}"] on the float64 made of a cell; a NULL cell is NaN. *)
  format_2f : option Q -> string;
  (** [x > 1000] on the float64 made of a cell. *)
  exceeds_1000 : option Q -> bool;
  (** [Series.sum()] on the float64 column made of the cells. *)
  sum : list (option Q) -> value
}.

End Float64.

(** ** The schema

    The table declarations are not part of the script; the columns are the
    ones the queries name.  Identifiers are text (the script joins them with
    [', '.join]) and are the tables' keys, hence never NULL; every other
    column is nullable.  Dates are day numbers, amounts are exact decimals
    (NUMERIC), embedded in [Q]. *)

Definition date := Z.

Module PatientRecords.
Record row := {
  patient_id : string;
  name : option string;
  date_of_birth : option date;
  insurance_id : option string;
  primary_provider : option string;
  contact_phone : option string;
  contact_email : option string;
  is_active : option bool
}.
End PatientRecords.

Module Claims.
Record row := {
  claim_id : string;
  patient_id : option string;
  provider_id : option string;
  claim_total_amount : option Q;
  service_date : option date;
  submission_date : option date;
  processing_date : option date
}.
End Claims.

Module ClaimsLineItems.
Record row := {
  line_item_id : string;
  claim_id : option string;
  line_item_amount : option Q
}.
End ClaimsLineItems.

Module Providers.
Record row := {
  provider_id : string;
  provider_name : option string;
  license_number : option string;
  license_state : option string;
  license_expiry_date : option date;
  is_active : option bool
}.
End Providers.

(** The dataset a run reads, with what the script leaves to PostgreSQL and
    pandas: a table is the list of its rows in the order a scan yields
    them, [current_date] is what [CURRENT_DATE] evaluates to,
    [tie_order k] is the executor's arrangement of the rows of the query of
    check [k] before its ORDER BY, and [floats] is float64 arithmetic on the
    cells of a result. *)
Record database := {
  patient_records : list PatientRecords.row;
  claims : list Claims.row;
  claims_line_items : list ClaimsLineItems.row;
  providers : list Providers.row;
  current_date : date;
  tie_order : check_key -> nat -> nat;
  floats : Float64.ops
}.

(** ** Findings *)

Inductive Severity := LOW | MEDIUM | HIGH | CRITICAL.

(** The arguments of one call of [log_quality_issue], which are also the
    columns of one row of [quality_audit_log].  The description is the one
    argument the script may take from a nullable column. *)
Record Finding := {
  check_type : string;
  table_name : string;
  record_id : string;
  issue_type : string;
  issue_description : option string;
  severity : Severity
}.


(** ** Rendering of values in f-strings *)

Definition str_Z (z : Z) : string := NilZero.string_of_int (Z.to_int z).

(** Two decimals of an exact amount, ties to even: what [f"{x:.2f}"] prints
    for an amount that float64 holds exactly. *)
Definition decimal_2f (x : option Q) : string :=
  match x with
  | None => "nan"
  | Some q =>
      let a := (Qabs q * 100)%Q in
      let den := Z.pos (Qden a) in
      let fl := (Qnum a / den)%Z in
      let c :=
        match (2 * (Qnum a mod den) ?= den)%Z with
        | Lt => fl
        | Gt => (fl + 1)%Z
        | Eq => if Z.even fl then fl else (fl + 1)%Z
        end in
      (if Sql.Qlt_bool q 0 then "-" else EmptyString)
        ++ str_Z (c / 100) ++ "."
        ++ (if (c mod 100 <? 10)%Z then "0" else EmptyString) ++ str_Z (c mod 100)
  end.

(** [f"{x}"] on a cell of an integer column. *)
Definition format_int (x : option Z) : string :=
  match x with Some z => str_Z z | None => "nan" end.

(** ** Rule 1: patient completeness *)

Module Completeness.

Record row := {
  patient_id : string;
  name : option string;
  date_of_birth : option date;
  insurance_id : option string;
  primary_provider : option string;
  contact_phone : option string;
  contact_email : option string;
  missing_fields : list string
}.

(** The [ARRAY_REMOVE(ARRAY[CASE ...], NULL)] column. *)
Definition missing_fields_of (p : PatientRecords.row) : list string :=
  Sql.array_remove_null
    [ Sql.case_when (Sql.is_null (PatientRecords.name p)) "name";
      Sql.case_when (Sql.is_null (PatientRecords.date_of_birth p))
        "date_of_birth";
      Sql.case_when (Sql.is_null (PatientRecords.insurance_id p))
        "insurance_id";
      Sql.case_when (Sql.is_null (PatientRecords.primary_provider p))
        "primary_provider";
      Sql.case_when
        (Sql.and3 (Sql.is_null (PatientRecords.contact_phone p))
                  (Sql.is_null (PatientRecords.contact_email p)))
        "contact_info" ].

Definition where_clause (p : PatientRecords.row) : Sql.sbool :=
  Sql.and3
    (Sql.cmp Bool.eqb (PatientRecords.is_active p) (Some true))
    (Sql.or3
      (Sql.or3
        (Sql.or3
          (Sql.or3 (Sql.is_null (PatientRecords.name p))
                   (Sql.is_null (PatientRecords.date_of_birth p)))
          (Sql.is_null (PatientRecords.insurance_id p)))
        (Sql.is_null (PatientRecords.primary_provider p)))
      (Sql.and3 (Sql.is_null (PatientRecords.contact_phone p))
                (Sql.is_null (PatientRecords.contact_email p)))).

Definition select (p : PatientRecords.row) : row :=
  {| patient_id := PatientRecords.patient_id p;
     name := PatientRecords.name p;
     date_of_birth := PatientRecords.date_of_birth p;
     insurance_id := PatientRecords.insurance_id p;
     primary_provider := PatientRecords.primary_provider p;
     contact_phone := PatientRecords.contact_phone p;
     contact_email := PatientRecords.contact_email p;
     missing_fields := missing_fields_of p |}.

Definition query (db : database) : list row :=
  map select
    (filter (fun p => Sql.holds (where_clause p)) (patient_records db)).

(** The call of [log_quality_issue] in the loop body. *)
Definition finding (r : row) : Finding :=
  let missing := String.concat ", " (missing_fields r) in
  {| check_type := "completeness_check";
     table_name := "patient_records";
     record_id := patient_id r;
     issue_type := "incomplete_record";
     issue_description := Some ("Missing fields: " ++ missing);
     severity :=
       if (2 <? List.length (missing_fields r))%nat then HIGH else MEDIUM |}.

End Completeness.

(** ** Rule 2: claims discrepancies *)

Module Discrepancies.

(** A row of the CTE [claim_line_totals]. *)
Record totals := {
  t_claim_id : string;
  t_patient_id : option string;
  t_provider_id : option string;
  t_claim_total_amount : option Q;
  t_calculated_total : Q;
  t_line_item_count : nat
}.

Record row := {
  claim_id : string;
  patient_id : option string;
  provider_id : option string;
  claim_total_amount : option Q;
  calculated_total : Q;
  line_item_count : nat;
  discrepancy_amount : option Q;
  discrepancy_percentage : option Q
}.

Definition joined := (Claims.row * option ClaimsLineItems.row)%type.

(** [claims c LEFT JOIN claims_line_items cli ON c.claim_id = cli.claim_id]:
    a claim is paired with each line item that matches it, or once with
    NULLs when none does. *)
Definition join_rows (lis : list ClaimsLineItems.row) (c : Claims.row)
  : list joined :=
  match
    filter
      (fun li =>
         Sql.holds
           (Sql.cmp String.eqb (Some (Claims.claim_id c))
              (ClaimsLineItems.claim_id li)))
      lis
  with
  | [] => [(c, None)]
  | matched => map (fun li => (c, Some li)) matched
  end.

Definition left_join (cs : list Claims.row) (lis : list ClaimsLineItems.row)
  : list joined :=
  flat_map (join_rows lis) cs.

(** [GROUP BY c.claim_id, c.patient_id, c.provider_id, c.claim_total_amount]. *)
Definition same_group (x y : joined) : bool :=
  String.eqb (Claims.claim_id (fst x)) (Claims.claim_id (fst y))
  && Sql.not_distinct String.eqb
       (Claims.patient_id (fst x)) (Claims.patient_id (fst y))
  && Sql.not_distinct String.eqb
       (Claims.provider_id (fst x)) (Claims.provider_id (fst y))
  && Sql.not_distinct Qeq_bool
       (Claims.claim_total_amount (fst x)) (Claims.claim_total_amount (fst y)).

Definition cli_amount (j : joined) : option Q :=
  match snd j with
  | Some li => ClaimsLineItems.line_item_amount li
  | None => None
  end.

Definition cli_id (j : joined) : option string :=
  option_map ClaimsLineItems.line_item_id (snd j).

Definition aggregate (g : joined * list joined) : totals :=
  let c := fst (fst g) in
  {| t_claim_id := Claims.claim_id c;
     t_patient_id := Claims.patient_id c;
     t_provider_id := Claims.provider_id c;
     t_claim_total_amount := Claims.claim_total_amount c;
     t_calculated_total := Sql.coalesce (Sql.sum (map cli_amount (snd g))) 0%Q;
     t_line_item_count := Sql.count (map cli_id (snd g)) |}.

Definition claim_line_totals (db : database) : list totals :=
  map aggregate
    (group_by same_group (left_join (claims db) (claims_line_items db))).

(** [ABS(claim_total_amount - calculated_total)]. *)
Definition abs_difference (t : totals) : option Q :=
  Sql.lift1 Qabs
    (Sql.lift2 Qminus (t_claim_total_amount t) (Some (t_calculated_total t))).

(** [ROUND((ABS(...) / NULLIF(claim_total_amount, 0)) * 100, 2)], with the
    quotient taken exactly. *)
Definition percentage (t : totals) : option Q :=
  Sql.lift1 Sql.round2
    (Sql.lift2 Qmult
       (Sql.lift2 Qdiv (abs_difference t)
          (Sql.nullif_zero (t_claim_total_amount t)))
       (Some 100%Q)).

Definition where_clause (t : totals) : Sql.sbool :=
  Sql.cmp Sql.Qlt_bool (Some (1 # 100)%Q) (abs_difference t).

Definition select (t : totals) : row :=
  {| claim_id := t_claim_id t;
     patient_id := t_patient_id t;
     provider_id := t_provider_id t;
     claim_total_amount := t_claim_total_amount t;
     calculated_total := t_calculated_total t;
     line_item_count := t_line_item_count t;
     discrepancy_amount := abs_difference t;
     discrepancy_percentage := percentage t |}.

(** [ORDER BY discrepancy_amount DESC]. *)
Definition sorts_before (x y : row) : bool :=
  match discrepancy_amount x, discrepancy_amount y with
  | Some a, Some b => Sql.Qlt_bool b a
  | _, _ => false
  end.

Definition query (db : database) : list row :=
  order_by (tie_order db claims_discrepancies) sorts_before
    (map select
       (filter (fun t => Sql.holds (where_clause t)) (claim_line_totals db))).

(** [row['discrepancy_amount'] > 1000], on the float64 cell. *)
Definition exceeds_1000 (db : database) (r : row) : bool :=
  Float64.exceeds_1000 (floats db) (discrepancy_amount r).

Definition finding (db : database) (r : row) : Finding :=
  let fmt := Float64.format_2f (floats db) in
  {| check_type := "discrepancy_check";
     table_name := "claims";
     record_id := claim_id r;
     issue_type := "amount_mismatch";
     issue_description :=
       Some ("Claim total: $" ++ fmt (claim_total_amount r)
             ++ ", Line items sum: $" ++ fmt (Some (calculated_total r))
             ++ ", Discrepancy: $" ++ fmt (discrepancy_amount r));
     severity := if exceeds_1000 db r then CRITICAL else HIGH |}.

(** [results['discrepancy_amount'].sum()], on the float64 column. *)
Definition total_discrepancy (db : database) (rows : list row)
  : Float64.value :=
  Float64.sum (floats db) (map discrepancy_amount rows).

End Discrepancies.

(** ** Rule 3: temporal anomalies *)

Module Temporal.

Record row := {
  claim_id : string;
  patient_id : option string;
  service_date : option date;
  submission_date : option date;
  processing_date : option date;
  anomaly_type : option string
}.

(** The two-armed [CASE]: the first arm whose condition is TRUE gives the
    value, and the value is NULL when neither is. *)
Definition anomaly_type_of (c : Claims.row) : option string :=
  if Sql.holds
       (Sql.cmp Z.ltb (Claims.submission_date c) (Claims.service_date c))
  then Some "Submission before service"
  else if Sql.holds
            (Sql.cmp Z.ltb (Claims.processing_date c)
               (Claims.submission_date c))
  then Some "Processing before submission"
  else None.

Definition where_clause (c : Claims.row) : Sql.sbool :=
  Sql.or3
    (Sql.cmp Z.ltb (Claims.submission_date c) (Claims.service_date c))
    (Sql.and3
       (Sql.is_not_null (Claims.processing_date c))
       (Sql.cmp Z.ltb (Claims.processing_date c) (Claims.submission_date c))).

Definition select (c : Claims.row) : row :=
  {| claim_id := Claims.claim_id c;
     patient_id := Claims.patient_id c;
     service_date := Claims.service_date c;
     submission_date := Claims.submission_date c;
     processing_date := Claims.processing_date c;
     anomaly_type := anomaly_type_of c |}.

Definition query (db : database) : list row :=
  map select (filter (fun c => Sql.holds (where_clause c)) (claims db)).

Definition finding (r : row) : Finding :=
  {| check_type := "temporal_check";
     table_name := "claims";
     record_id := claim_id r;
     issue_type := "temporal_anomaly";
     issue_description := anomaly_type r;
     severity := HIGH |}.

End Temporal.

(** ** Rule 4: duplicate records *)

Module Duplicates.

Record row := {
  name : option string;
  date_of_birth : option date;
  duplicate_count : nat;
  patient_ids : list string
}.

Definition where_clause (p : PatientRecords.row) : Sql.sbool :=
  Sql.and3
    (Sql.and3 (Sql.is_not_null (PatientRecords.name p))
              (Sql.is_not_null (PatientRecords.date_of_birth p)))
    (Sql.cmp Bool.eqb (PatientRecords.is_active p) (Some true)).

(** [GROUP BY name, date_of_birth]. *)
Definition same_group (p q : PatientRecords.row) : bool :=
  Sql.not_distinct String.eqb (PatientRecords.name p) (PatientRecords.name q)
  && Sql.not_distinct Z.eqb
       (PatientRecords.date_of_birth p) (PatientRecords.date_of_birth q).

(** The groups the query forms, before [HAVING]. *)
Definition groups (db : database)
  : list (PatientRecords.row * list PatientRecords.row) :=
  group_by same_group
    (filter (fun p => Sql.holds (where_clause p)) (patient_records db)).

(** [COUNT( * )] and [ARRAY_AGG(patient_id)] over one group. *)
Definition aggregate (g : PatientRecords.row * list PatientRecords.row) : row :=
  {| name := PatientRecords.name (fst g);
     date_of_birth := PatientRecords.date_of_birth (fst g);
     duplicate_count := List.length (snd g);
     patient_ids := map PatientRecords.patient_id (snd g) |}.

(** [HAVING COUNT( * ) > 1]. *)
Definition having (g : PatientRecords.row * list PatientRecords.row) : bool :=
  (1 <? List.length (snd g))%nat.

(** [ORDER BY duplicate_count DESC]. *)
Definition sorts_before (x y : row) : bool :=
  (duplicate_count y <? duplicate_count x)%nat.

Definition query (db : database) : list row :=
  order_by (tie_order db duplicate_records) sorts_before
    (map aggregate (filter having (groups db))).

(** The call of [log_quality_issue] in the loop body; [None] where
    [row['patient_ids'][0]] raises IndexError. *)
Definition finding (r : row) : option Finding :=
  let joined_ids := String.concat ", " (patient_ids r) in
  match patient_ids r with
  | [] => None
  | first :: _ =>
      Some {| check_type := "duplicate_check";
              table_name := "patient_records";
              record_id := first;
              issue_type := "potential_duplicate";
              issue_description :=
                Some ("Duplicate patients found: " ++ joined_ids);
              severity := MEDIUM |}
  end.

(** [results['duplicate_count'].sum() if len(results) > 0 else 0]. *)
Definition total_duplicates (rows : list row) : nat :=
  fold_left Nat.add (map duplicate_count rows) 0%nat.

End Duplicates.

(** ** Rule 5: provider credentials *)

Module Credentials.

Record row := {
  provider_id : string;
  provider_name : option string;
  license_number : option string;
  license_state : option string;
  license_expiry_date : option date;
  days_expired : option Z
}.

Definition where_clause (db : database) (p : Providers.row) : Sql.sbool :=
  Sql.and3
    (Sql.cmp Z.ltb (Providers.license_expiry_date p) (Some (current_date db)))
    (Sql.cmp Bool.eqb (Providers.is_active p) (Some true)).

(** A date minus a date is a number of days. *)
Definition select (db : database) (p : Providers.row) : row :=
  {| provider_id := Providers.provider_id p;
     provider_name := Providers.provider_name p;
     license_number := Providers.license_number p;
     license_state := Providers.license_state p;
     license_expiry_date := Providers.license_expiry_date p;
     days_expired :=
       Sql.lift2 Z.sub (Some (current_date db))
         (Providers.license_expiry_date p) |}.

(** [ORDER BY license_expiry_date], ascending. *)
Definition sorts_before (x y : row) : bool :=
  match license_expiry_date x, license_expiry_date y with
  | Some a, Some b => (a <? b)%Z
  | _, _ => false
  end.

Definition query (db : database) : list row :=
  order_by (tie_order db provider_credentials) sorts_before
    (map (select db)
       (filter (fun p => Sql.holds (where_clause db p)) (providers db))).

Definition finding (r : row) : Finding :=
  {| check_type := "credential_check";
     table_name := "providers";
     record_id := provider_id r;
     issue_type := "expired_license";
     issue_description :=
       Some ("License expired " ++ format_int (days_expired r) ++ " days ago");
     severity := CRITICAL |}.

End Credentials.

(** ** Rule results and the report *)

(** The DataFrame a check returns under ['details']. *)
Inductive Details :=
| CompletenessDetails (rows : list Completeness.row)
| DiscrepancyDetails (rows : list Discrepancies.row)
| TemporalDetails (rows : list Temporal.row)
| DuplicateDetails (rows : list Duplicates.row)
| CredentialDetails (rows : list Credentials.row).

(** The dict a check returns; the two totals are keys that only one check
    each sets. *)
Record RuleResult := {
  check_name : string;
  issues_found : nat;
  total_discrepancy : option Float64.value;
  total_duplicates : option nat;
  details : Details
}.

(** The dict each check returns, as a function of the rows its query gave. *)
Definition completeness_result (results : list Completeness.row) : RuleResult :=
  {| check_name := "Patient Completeness";
     issues_found := List.length results;
     total_discrepancy := None;
     total_duplicates := None;
     details := CompletenessDetails results |}.

Definition discrepancy_result (db : database)
  (results : list Discrepancies.row) : RuleResult :=
  {| check_name := "Claims Discrepancies";
     issues_found := List.length results;
     total_discrepancy :=
       Some (if (0 <? List.length results)%nat
             then Discrepancies.total_discrepancy db results
             else Float64.finite 0%Q);
     total_duplicates := None;
     details := DiscrepancyDetails results |}.

Definition temporal_result (results : list Temporal.row) : RuleResult :=
  {| check_name := "Temporal Anomalies";
     issues_found := List.length results;
     total_discrepancy := None;
     total_duplicates := None;
     details := TemporalDetails results |}.

Definition duplicate_result (results : list Duplicates.row) : RuleResult :=
  {| check_name := "Duplicate Records";
     issues_found := List.length results;
     total_discrepancy := None;
     total_duplicates :=
       Some (if (0 <? List.length results)%nat
             then Duplicates.total_duplicates results else 0%nat);
     details := DuplicateDetails results |}.

Definition credential_result (results : list Credentials.row) : RuleResult :=
  {| check_name := "Provider Credentials";
     issues_found := List.length results;
     total_discrepancy := None;
     total_duplicates := None;
     details := CredentialDetails results |}.

Inductive Status := PASS | FAIL.

Record Summary := {
  total_issues_found : nat;
  checks_performed : nat;
  status : Status
}.

Record Report := {
  timestamp : string;
  checks : list (check_key * RuleResult);
  summary : Summary
}.

(** ** The checker object and its environment *)

(** [self.connection]: [None], a live connection, or a closed one. *)
Inductive connection_state := NoConnection | Open | Closed.

(** What the run does to the outside, in order. *)
Inductive event :=
| Connected
| Queried (k : check_key)
| QueryFailed (k : check_key)
| Logged (f : Finding)
| LogFailed (f : Finding)
| Disconnected.

Record checker := {
  connection : connection_state;
  quality_audit_log : list Finding;
  trace : list event
}.

(** Exceptions that leave a method. *)
Inductive exn :=
| ConnectionError
| DataAccessError (k : check_key)
| InterfaceError
| AttributeError
| IndexError.

(** The environment decides which operations on the connection fail: the
    connection attempt, each check's query, each audit insert (numbered by
    the position it takes in the trace) and, when an insert has failed, the
    [connection.rollback()] of its handler, which stands outside any [try].
    [connection.close()] returns normally.  [clock] is
    [datetime.now().isoformat()]. *)
Record environment := {
  connect_fails : bool;
  query_fails : check_key -> bool;
  write_fails : nat -> bool;
  rollback_fails : nat -> bool;
  clock : string
}.

Inductive outcome (A : Type) :=
| Returned (a : A)
| Raised (e : exn).

Arguments Returned {A} a.
Arguments Raised {A} e.

(** A method: from the checker's state to an outcome and the state left. *)
Definition M (A : Type) := checker -> outcome A * checker.

Definition ret {A} (a : A) : M A := fun s => (Returned a, s).

Definition raise {A} (e : exn) : M A := fun s => (Raised e, s).

Definition bind {A B} (m : M A) (k : A -> M B) : M B :=
  fun s =>
    match m s with
    | (Returned a, s') => k a s'
    | (Raised e, s') => (Raised e, s')
    end.

Notation "x <- m ;; k" := (bind m (fun x => k))
  (at level 61, m at next level, right associativity).
Notation "m ;; k" := (bind m (fun _ => k))
  (at level 61, right associativity).

(** [try: body finally: cleanup]. *)
Definition try_finally {A} (body : M A) (cleanup : M unit) : M A :=
  fun s =>
    match body s with
    | (r, s') =>
        match cleanup s' with
        | (Returned _, s'') => (r, s'')
        | (Raised e, s'') => (Raised e, s'')
        end
    end.

(** [for _, row in results.iterrows(): body]. *)
Fixpoint for_each {A} (rows : list A) (body : A -> M unit) : M unit :=
  match rows with
  | [] => ret tt
  | r :: rest => body r ;; for_each rest body
  end.

Definition emit (e : event) (s : checker) : checker :=
  {| connection := connection s;
     quality_audit_log := quality_audit_log s;
     trace := trace s ++ [e] |}%list.

Section Methods.

Variable env : environment.
Variable db : database.

Definition connect : M unit :=
  fun s =>
    if connect_fails env then (Raised ConnectionError, s)
    else (Returned tt,
          emit Connected
            {| connection := Open;
               quality_audit_log := quality_audit_log s;
               trace := trace s |}).

Definition disconnect : M unit :=
  fun s =>
    match connection s with
    | NoConnection => (Returned tt, s)
    | _ =>
        (Returned tt,
         emit Disconnected
           {| connection := Closed;
              quality_audit_log := quality_audit_log s;
              trace := trace s |})
    end.

(** [pd.read_sql_query] needs a live connection; the handler logs and
    re-raises. *)
Definition execute_query {A} (k : check_key) (query : database -> list A)
  : M (list A) :=
  fun s =>
    match connection s with
    | Open =>
        if query_fails env k
        then (Raised (DataAccessError k), emit (QueryFailed k) s)
        else (Returned (query db), emit (Queried k) s)
    | _ => (Raised (DataAccessError k), emit (QueryFailed k) s)
    end.

(** The insert and its commit are inside the [try]; the handler logs the
    failure and rolls back.  The rollback is not guarded: when it fails, as
    on a connection that is lost, its error leaves the method.  On a closed
    connection [cursor()] and then [rollback()] raise InterfaceError; before
    [connect], [self.connection] is None and both raise AttributeError. *)
Definition log_quality_issue (f : Finding) : M unit :=
  fun s =>
    match connection s with
    | Open =>
        if write_fails env (List.length (trace s))
        then
          if rollback_fails env (List.length (trace s))
          then (Raised InterfaceError, emit (LogFailed f) s)
          else (Returned tt, emit (LogFailed f) s)
        else (Returned tt,
              emit (Logged f)
                {| connection := connection s;
                   quality_audit_log := (quality_audit_log s ++ [f])%list;
                   trace := trace s |})
    | Closed => (Raised InterfaceError, emit (LogFailed f) s)
    | NoConnection => (Raised AttributeError, emit (LogFailed f) s)
    end.

Definition check_patient_completeness : M RuleResult :=
  results <- execute_query patient_completeness Completeness.query ;;
  for_each results
    (fun row => log_quality_issue (Completeness.finding row)) ;;
  ret (completeness_result results).

Definition check_claims_discrepancies : M RuleResult :=
  results <- execute_query claims_discrepancies Discrepancies.query ;;
  for_each results
    (fun row => log_quality_issue (Discrepancies.finding db row)) ;;
  ret (discrepancy_result db results).

Definition check_temporal_anomalies : M RuleResult :=
  results <- execute_query temporal_anomalies Temporal.query ;;
  for_each results
    (fun row => log_quality_issue (Temporal.finding row)) ;;
  ret (temporal_result results).

Definition check_duplicate_records : M RuleResult :=
  results <- execute_query duplicate_records Duplicates.query ;;
  for_each results
    (fun row =>
       match Duplicates.finding row with
       | Some f => log_quality_issue f
       | None => raise IndexError
       end) ;;
  ret (duplicate_result results).

Definition check_provider_credentials : M RuleResult :=
  results <- execute_query provider_credentials Credentials.query ;;
  for_each results
    (fun row => log_quality_issue (Credentials.finding row)) ;;
  ret (credential_result results).

(** [sum(check['issues_found'] for check in results['checks'].values())]. *)
Definition sum_issues (cs : list (check_key * RuleResult)) : nat :=
  fold_left Nat.add (map (fun kv => issues_found (snd kv)) cs) 0%nat.

(** The body of the [try] block: the dict literal, then the summary. *)
Definition all_checks : M Report :=
  let ts := clock env in
  r1 <- check_patient_completeness ;;
  r2 <- check_claims_discrepancies ;;
  r3 <- check_temporal_anomalies ;;
  r4 <- check_duplicate_records ;;
  r5 <- check_provider_credentials ;;
  let cs := [ (patient_completeness, r1);
              (claims_discrepancies, r2);
              (temporal_anomalies, r3);
              (duplicate_records, r4);
              (provider_credentials, r5) ] in
  let total_issues := sum_issues cs in
  ret {| timestamp := ts;
         checks := cs;
         summary :=
           {| total_issues_found := total_issues;
              checks_performed := List.length cs;
              status := if (0 <? total_issues)%nat then FAIL else PASS |} |}.

Definition run_all_checks : M Report :=
  connect ;;
  try_finally all_checks disconnect.

End Methods.

(** The method behind each key of the dict literal. *)
Definition check_method (k : check_key) : environment -> database -> M RuleResult :=
  match k with
  | patient_completeness => check_patient_completeness
  | claims_discrepancies => check_claims_discrepancies
  | temporal_anomalies => check_temporal_anomalies
  | duplicate_records => check_duplicate_records
  | provider_credentials => check_provider_credentials
  end.

(** [HealthcareQualityChecker(db_config)], before any call. *)
Definition new_checker : checker :=
  {| connection := NoConnection; quality_audit_log := []; trace := [] |}.

(** ** What a run did, read off its trace *)

(** The calls of [log_quality_issue], whether or not the insert went
    through. *)
Fixpoint attempted (t : list event) : list Finding :=
  match t with
  | [] => []
  | Logged f :: rest | LogFailed f :: rest => f :: attempted rest
  | _ :: rest => attempted rest
  end.

(** The checks whose query was sent, whether or not it came back. *)
Fixpoint executed (t : list event) : list check_key :=
  match t with
  | [] => []
  | Queried k :: rest | QueryFailed k :: rest => k :: executed rest
  | _ :: rest => executed rest
  end.

(** The order of the dict literal in [run_all_checks]. *)
Definition registered : list check_key :=
  [ patient_completeness; claims_discrepancies; temporal_anomalies;
    duplicate_records; provider_credentials ].

Definition rank (k : check_key) : nat :=
  match k with
  | patient_completeness => 0
  | claims_discrepancies => 1
  | temporal_anomalies => 2
  | duplicate_records => 3
  | provider_credentials => 4
  end.

(** The checks up to and including [k]. *)
Definition up_to (k : check_key) : list check_key :=
  firstn (S (rank k)) registered.

(** The findings a check hands to [log_quality_issue] when its query
    succeeds, and the dict it then returns. *)
Definition rule_findings (k : check_key) (db : database) : list Finding :=
  match k with
  | patient_completeness =>
      map Completeness.finding (Completeness.query db)
  | claims_discrepancies =>
      map (Discrepancies.finding db) (Discrepancies.query db)
  | temporal_anomalies => map Temporal.finding (Temporal.query db)
  | duplicate_records =>
      Sql.array_remove_null (map Duplicates.finding (Duplicates.query db))
  | provider_credentials => map Credentials.finding (Credentials.query db)
  end.

Definition rule_result (k : check_key) (db : database) : RuleResult :=
  match k with
  | patient_completeness => completeness_result (Completeness.query db)
  | claims_discrepancies => discrepancy_result db (Discrepancies.query db)
  | temporal_anomalies => temporal_result (Temporal.query db)
  | duplicate_records => duplicate_result (Duplicates.query db)
  | provider_credentials => credential_result (Credentials.query db)
  end.

(** An environment in which every audit insert goes through. *)
Definition writes_succeed (env : environment) : environment :=
  {| connect_fails := connect_fails env;
     query_fails := query_fails env;
     write_fails := fun _ => false;
     rollback_fails := rollback_fails env;
     clock := clock env |}.

(** An environment in which the rollback of the handler never fails, and
    one in which it does at some insert. *)
Definition rollback_safe (env : environment) : Prop :=
  forall n, write_fails env n = true -> rollback_fails env n = false.

Definition handler_failed (env : environment) : Prop :=
  exists n, write_fails env n = true /\ rollback_fails env n = true.

(** ** The rules in the specification's words *)

Definition null {A} (x : option A) : bool :=
  match x with None => true | Some _ => false end.

(** The missing-field set: each required field that is null, plus the label
    of the contact group when both contact fields are null. *)
Definition missing_field_set (p : PatientRecords.row) : list string :=
  ((if null (PatientRecords.name p) then ["name"] else [])
   ++ (if null (PatientRecords.date_of_birth p) then ["date_of_birth"] else [])
   ++ (if null (PatientRecords.insurance_id p) then ["insurance_id"] else [])
   ++ (if null (PatientRecords.primary_provider p)
       then ["primary_provider"] else [])
   ++ (if null (PatientRecords.contact_phone p)
          && null (PatientRecords.contact_email p)
       then ["contact_info"] else []))%list.

(** The line items of a claim, and the sum of their amounts (0 if there is
    none). *)
Definition children (db : database) (c : Claims.row)
  : list ClaimsLineItems.row :=
  filter
    (fun li =>
       match ClaimsLineItems.claim_id li with
       | Some i => String.eqb (Claims.claim_id c) i
       | None => false
       end)
    (claims_line_items db).

Definition sum_of_child_amounts (db : database) (c : Claims.row) : Q :=
  fold_right Qplus 0%Q
    (Sql.array_remove_null
       (map ClaimsLineItems.line_item_amount (children db c))).

(** The records that carry the name [n] and the birth date [d], the active
    ones among them, and the rows of a query result about that key. *)
Definition has_key (n : string) (d : date) (p : PatientRecords.row) : bool :=
  match PatientRecords.name p, PatientRecords.date_of_birth p with
  | Some n', Some d' => String.eqb n n' && Z.eqb d d'
  | _, _ => false
  end.

Definition shares_key (n : string) (d : date) (p : PatientRecords.row) : bool :=
  match PatientRecords.is_active p with
  | Some true => has_key n d p
  | _ => false
  end.

Definition members (db : database) (n : string) (d : date)
  : list PatientRecords.row :=
  filter (shares_key n d) (patient_records db).

Definition row_for_key (n : string) (d : date) (r : Duplicates.row) : bool :=
  match Duplicates.name r, Duplicates.date_of_birth r with
  | Some n', Some d' => String.eqb n n' && Z.eqb d d'
  | _, _ => false
  end.

(** ** A small dataset and environment to run the checker on *)

Module Sample.

Definition patient (id : string) (n : option string) (d : option date)
  (ins pp ph em : option string) (act : option bool) : PatientRecords.row :=
  {| PatientRecords.patient_id := id;
     PatientRecords.name := n;
     PatientRecords.date_of_birth := d;
     PatientRecords.insurance_id := ins;
     PatientRecords.primary_provider := pp;
     PatientRecords.contact_phone := ph;
     PatientRecords.contact_email := em;
     PatientRecords.is_active := act |}.

Definition claim (id : string) (total : option Q) (svc sub prc : option date)
  : Claims.row :=
  {| Claims.claim_id := id;
     Claims.patient_id := Some "P1";
     Claims.provider_id := Some "D1";
     Claims.claim_total_amount := total;
     Claims.service_date := svc;
     Claims.submission_date := sub;
     Claims.processing_date := prc |}.

Definition line_item (id : string) (c : option string) (amount : option Q)
  : ClaimsLineItems.row :=
  {| ClaimsLineItems.line_item_id := id;
     ClaimsLineItems.claim_id := c;
     ClaimsLineItems.line_item_amount := amount |}.

Definition provider (id : string) (expiry : option date) (act : option bool)
  : Providers.row :=
  {| Providers.provider_id := id;
     Providers.provider_name := Some "Dr";
     Providers.license_number := None;
     Providers.license_state := None;
     Providers.license_expiry_date := expiry;
     Providers.is_active := act |}.

(** Misses insurance, provider and both contacts. *)
Definition p1 : PatientRecords.row :=
  patient "P1" (Some "Ann") (Some 100%Z) None None None None (Some true).

Definition p2 : PatientRecords.row :=
  patient "P2" (Some "Ann") (Some 100%Z) (Some "I2") (Some "D1") (Some "555")
    None (Some true).

(** Misses its name only. *)
Definition p3 : PatientRecords.row :=
  patient "P3" None (Some 100%Z) (Some "I3") (Some "D1") None (Some "a@b")
    (Some true).

Definition p4 : PatientRecords.row :=
  patient "P4" (Some "Ann") (Some 100%Z) (Some "I4") (Some "D1") (Some "556")
    None (Some true).

Definition p5 : PatientRecords.row :=
  patient "P5" None (Some 100%Z) (Some "I3") (Some "D1") None (Some "a@b")
    (Some true).

(** Submitted before the service and processed before the submission;
    stated 100.00 against line items of 100.50. *)
Definition c1 : Claims.row :=
  claim "C1" (Some (100 # 1)%Q) (Some 10%Z) (Some 5%Z) (Some 1%Z).

(** Stated 0 against line items of 3.00. *)
Definition c2 : Claims.row :=
  claim "C2" (Some 0%Q) (Some 10%Z) (Some 15%Z) (Some 11%Z).

Definition c3 : Claims.row :=
  claim "C3" (Some (250025 # 100)%Q) None (Some 15%Z) None.

(** Expired the day before the current date. *)
Definition d1 : Providers.row := provider "D1" (Some 99%Z) (Some true).

(** Expires on the current date. *)
Definition d2 : Providers.row := provider "D2" (Some 100%Z) (Some true).

Definition d3 : Providers.row := provider "D3" (Some 50%Z) (Some true).

(** Float64 arithmetic where it is exact: the amounts of the sample are
    multiples of 1/4, far below 2^53, so that float64 holds every cell, and
    every sum of cells, exactly. *)
Definition exact : Float64.ops :=
  {| Float64.format_2f := decimal_2f;
     Float64.exceeds_1000 :=
       fun x =>
         match x with
         | Some d => Sql.Qlt_bool 1000%Q d
         | None => false
         end;
     Float64.sum :=
       fun xs =>
         Float64.finite (fold_left Qplus (Sql.array_remove_null xs) 0%Q) |}.

(** The executor keeps the rows in table order. *)
Definition db : database :=
  {| patient_records := [p1; p2; p3; p4; p5];
     claims := [c1; c2; c3];
     claims_line_items :=
       [ line_item "L1" (Some "C1") (Some (5025 # 100)%Q);
         line_item "L2" (Some "C1") (Some (5025 # 100)%Q);
         line_item "L3" (Some "C2") (Some (3 # 1)%Q);
         line_item "L4" (Some "C2") None;
         line_item "L5" None (Some (7 # 1)%Q) ];
     providers := [d1; d2; d3; provider "D4" (Some 50%Z) (Some false)];
     current_date := 100%Z;
     tie_order := fun _ _ => 0;
     floats := exact |}.

(** Nothing fails. *)
Definition calm : environment :=
  {| connect_fails := false;
     query_fails := fun _ => false;
     write_fails := fun _ => false;
     rollback_fails := fun _ => false;
     clock := "2024-01-01T00:00:00" |}.

(** Every second audit insert fails, and is rolled back. *)
Definition lossy : environment :=
  {| connect_fails := false;
     query_fails := fun _ => false;
     write_fails := Nat.even;
     rollback_fails := fun _ => false;
     clock := "2024-01-01T00:00:00" |}.

(** The query of exactly one check, the second, fails. *)
Definition one_query_down : environment :=
  {| connect_fails := false;
     query_fails := fun k => check_key_eqb k claims_discrepancies;
     write_fails := fun _ => false;
     rollback_fails := fun _ => false;
     clock := "2024-01-01T00:00:00" |}.

(** Nothing fails, at a later time. *)
Definition later : environment :=
  {| connect_fails := false;
     query_fails := fun _ => false;
     write_fails := fun _ => false;
     rollback_fails := fun _ => false;
     clock := "2024-01-02T00:00:00" |}.

(** The connection is lost once the first query has come back: every
    insert fails, and so does the rollback of its handler. *)
Definition lost : environment :=
  {| connect_fails := false;
     query_fails := fun k => negb (check_key_eqb k patient_completeness);
     write_fails := fun _ => true;
     rollback_fails := fun _ => true;
     clock := "2024-01-01T00:00:00" |}.

End Sample.

(** A method that leaves [self.connection] as it found it. *)
Definition preserves_connection {A} (m : M A) : Prop :=
  forall s, connection (snd (m s)) = connection s.

(** The loop body shared by the checks: log the finding of a row, or raise
    where the row has none. *)
Definition log_row {A} (env : environment) (g : A -> option Finding) (r : A)
  : M unit :=
  match g r with
  | Some f => log_quality_issue env f
  | None => raise IndexError
  end.

(** ** Further readings of a run *)

(** The inserts a trace says went through. *)
Fixpoint logged (t : list event) : list Finding :=
  match t with
  | [] => []
  | Logged f :: rest => f :: logged rest
  | _ :: rest => logged rest
  end.

(** The events a check produces: queries and audit inserts. *)
Definition rule_event (e : event) : bool :=
  match e with
  | Connected | Disconnected => false
  | _ => true
  end.

(** A method that only queries and logs: it extends the trace by events of
    checks, and the audit table by the inserts that went through. *)
Definition journals {A} (m : M A) : Prop :=
  forall s,
  exists evs,
    trace (snd (m s)) = (trace s ++ evs)%list
    /\ forallb rule_event evs = true
    /\ quality_audit_log (snd (m s))
       = (quality_audit_log s ++ logged evs)%list.

(** The checker once [connect] has returned, and once [disconnect] has
    closed its connection. *)
Definition connected (s : checker) : checker :=
  emit Connected
    {| connection := Open;
       quality_audit_log := quality_audit_log s;
       trace := trace s |}.

Definition closed (s : checker) : checker :=
  emit Disconnected
    {| connection := Closed;
       quality_audit_log := quality_audit_log s;
       trace := trace s |}.

(** The report of a run in which every query comes back. *)
Definition expected_report (env : environment) (db : database) : Report :=
  let cs := map (fun k => (k, rule_result k db)) registered in
  {| timestamp := clock env;
     checks := cs;
     summary :=
       {| total_issues_found := sum_issues cs;
          checks_performed := 5;
          status := if (0 <? sum_issues cs)%nat then FAIL else PASS |} |}.

(** The findings of the five checks, in the order they are logged. *)
Definition all_findings (db : database) : list Finding :=
  List.concat (map (fun k => rule_findings k db) registered).

(** [x < y] on nullable dates, when it is TRUE. *)
Definition before_date (x y : option date) : Prop :=
  exists a b, x = Some a /\ y = Some b /\ (a < b)%Z.

(** * Properties of the engine *)

Lemma attempted_app (t1 t2 : list event) :
  attempted (t1 ++ t2) = (attempted t1 ++ attempted t2)%list.
Proof.
  induction t1 as [|e t1 IH]; simpl; [reflexivity|].
  destruct e; simpl; rewrite IH; reflexivity.
Qed.

Lemma executed_app (t1 t2 : list event) :
  executed (t1 ++ t2) = (executed t1 ++ executed t2)%list.
Proof.
  induction t1 as [|e t1 IH]; simpl; [reflexivity|].
  destruct e; simpl; rewrite IH; reflexivity.
Qed.

Lemma remove_null_map_Some {A B} (f : A -> B) (l : list A) :
  Sql.array_remove_null (map (fun x => Some (f x)) l) = map f l.
Proof.
  induction l as [|x l IH]; simpl; [reflexivity | now rewrite IH].
Qed.

Lemma bind_returned {A B} (m : M A) (k : A -> M B) s b s' :
  bind m k s = (Returned b, s') ->
  exists a s1, m s = (Returned a, s1) /\ k a s1 = (Returned b, s').
Proof.
  unfold bind. destruct (m s) as [[a|e] s1]; intros H.
  - exists a, s1. split; [reflexivity | exact H].
  - discriminate H.
Qed.

Lemma try_finally_returned {A} (body : M A) (cleanup : M unit) s a s' :
  try_finally body cleanup s = (Returned a, s') ->
  exists s1, body s = (Returned a, s1).
Proof.
  unfold try_finally. destruct (body s) as [r s1].
  destruct (cleanup s1) as [[u|e] s2]; intros H; inversion H; subst.
  exists s1. reflexivity.
Qed.

Lemma rollback_safe_handler (env : environment) :
  rollback_safe env -> ~ handler_failed env.
Proof.
  intros Hsafe (n & Hw & Hr). rewrite (Hsafe n Hw) in Hr. discriminate.
Qed.

Section EngineFacts.

Variable env : environment.
Variable db : database.

(** On a live connection [log_quality_issue] returns, whether the insert
    went through or was rolled back, unless the rollback itself fails. *)
Lemma log_quality_issue_cases (f : Finding) (s : checker) :
  connection s = Open ->
  exists s',
    connection s' = Open
    /\ attempted (trace s') = (attempted (trace s) ++ [f])%list
    /\ executed (trace s') = executed (trace s)
    /\ (log_quality_issue env f s = (Returned tt, s')
        \/ (log_quality_issue env f s = (Raised InterfaceError, s')
            /\ handler_failed env)).
Proof.
  intros Hopen. unfold log_quality_issue. rewrite Hopen.
  destruct (write_fails env (List.length (trace s))) eqn:Hw;
    [destruct (rollback_fails env (List.length (trace s))) eqn:Hr|];
    [ exists (emit (LogFailed f) s)
    | exists (emit (LogFailed f) s)
    | exists (emit (Logged f)
                {| connection := Open;
                   quality_audit_log := (quality_audit_log s ++ [f])%list;
                   trace := trace s |}) ];
    simpl; rewrite attempted_app, executed_app; simpl;
    rewrite ?app_nil_r; repeat split; auto.
  right. split; [reflexivity|]. exists (List.length (trace s)). auto.
Qed.

Lemma for_each_log_cases {A} (g : A -> option Finding) (rows : list A) :
  Forall (fun r => g r <> None) rows ->
  forall s,
    connection s = Open ->
    exists s',
      connection s' = Open
      /\ executed (trace s') = executed (trace s)
      /\ ((for_each rows (log_row env g) s = (Returned tt, s')
           /\ attempted (trace s')
              = (attempted (trace s)
                 ++ Sql.array_remove_null (map g rows))%list)
          \/ (for_each rows (log_row env g) s = (Raised InterfaceError, s')
              /\ handler_failed env)).
Proof.
  induction 1 as [|r rows Hr Hrows IH]; intros s Hopen; simpl.
  - exists s. rewrite app_nil_r. auto.
  - unfold bind, log_row at 1 3.
    destruct (g r) as [f|] eqn:Eg; [|congruence].
    destruct (log_quality_issue_cases f s Hopen)
      as (s1 & O1 & A1 & X1 & [E1|[E1 Hf]]); rewrite E1.
    + destruct (IH s1 O1) as (s2 & O2 & X2 & [[E2 A2]|[E2 Hf]]).
      * exists s2. rewrite E2, A2, A1, X2, X1, <- app_assoc. auto.
      * exists s2. rewrite E2, X2, X1. auto.
    + exists s1. auto.
Qed.

Lemma for_each_log {A} (g : A -> option Finding) (rows : list A) :
  rollback_safe env ->
  Forall (fun r => g r <> None) rows ->
  forall s,
    connection s = Open ->
    exists s',
      for_each rows (log_row env g) s = (Returned tt, s')
      /\ connection s' = Open
      /\ attempted (trace s')
         = (attempted (trace s) ++ Sql.array_remove_null (map g rows))%list
      /\ executed (trace s') = executed (trace s).
Proof.
  intros Hsafe Hrows s Hopen.
  destruct (for_each_log_cases g rows Hrows s Hopen)
    as (s' & O & X & [[E At]|[_ Hf]]).
  - exists s'. auto.
  - exfalso. exact (rollback_safe_handler env Hsafe Hf).
Qed.

Lemma for_each_log_cases_total {A} (f : A -> Finding) (rows : list A)
      (s : checker) :
  connection s = Open ->
  exists s',
    connection s' = Open
    /\ executed (trace s') = executed (trace s)
    /\ ((for_each rows (fun r => log_quality_issue env (f r)) s
         = (Returned tt, s')
         /\ attempted (trace s') = (attempted (trace s) ++ map f rows)%list)
        \/ (for_each rows (fun r => log_quality_issue env (f r)) s
            = (Raised InterfaceError, s')
            /\ handler_failed env)).
Proof.
  intros Hopen.
  destruct (for_each_log_cases (fun r => Some (f r)) rows) with (s := s)
    as (s' & O & X & [[E At]|[E Hf]]); auto.
  - apply Forall_forall. intros; discriminate.
  - exists s'. rewrite remove_null_map_Some in At. auto.
  - exists s'. auto.
Qed.

Lemma execute_query_ok {A} (k : check_key) (q : database -> list A) s :
  connection s = Open ->
  query_fails env k = false ->
  execute_query env db k q s = (Returned (q db), emit (Queried k) s).
Proof.
  intros Hopen Hq. unfold execute_query. rewrite Hopen, Hq. reflexivity.
Qed.

Lemma execute_query_raises {A} (k : check_key) (q : database -> list A) s :
  connection s <> Open \/ query_fails env k = true ->
  execute_query env db k q s
  = (Raised (DataAccessError k), emit (QueryFailed k) s).
Proof.
  intros H. unfold execute_query.
  destruct (connection s); try reflexivity.
  destruct H as [H|H]; [congruence | rewrite H; reflexivity].
Qed.

End EngineFacts.

(** * Facts on ordering and grouping *)

Section RowFacts.

Context {A : Type}.

Lemma insert_row_Permutation (before : A -> A -> bool) (x : A) (l : list A) :
  Permutation (insert_row before x l) (x :: l).
Proof.
  induction l as [|y t IH]; simpl.
  - apply Permutation_refl.
  - destruct (before y x).
    + apply perm_trans with (y :: x :: t).
      * apply perm_skip, IH.
      * apply perm_swap.
    + apply Permutation_refl.
Qed.

Lemma place_Permutation (n : nat) (x : A) (l : list A) :
  Permutation (place n x l) (x :: l).
Proof.
  unfold place. apply Permutation_sym.
  rewrite <- (firstn_skipn n l) at 1. apply Permutation_middle.
Qed.

Lemma arrange_Permutation (pick : nat -> nat) (l : list A) :
  Permutation (arrange pick l) l.
Proof.
  induction l as [|x l IH]; simpl.
  - apply perm_nil.
  - apply perm_trans with (x :: arrange pick l).
    + apply place_Permutation.
    + apply perm_skip, IH.
Qed.

Lemma sort_Permutation (before : A -> A -> bool) (l : list A) :
  Permutation (fold_right (insert_row before) [] l) l.
Proof.
  induction l as [|x l IH]; simpl.
  - apply perm_nil.
  - apply perm_trans with (x :: fold_right (insert_row before) [] l).
    + apply insert_row_Permutation.
    + apply perm_skip, IH.
Qed.

Lemma order_by_Permutation (pick : nat -> nat) (before : A -> A -> bool)
      (l : list A) :
  Permutation (order_by pick before l) l.
Proof.
  unfold order_by.
  apply perm_trans with (arrange pick l).
  - apply sort_Permutation.
  - apply arrange_Permutation.
Qed.

Lemma order_by_In (pick : nat -> nat) (before : A -> A -> bool)
      (l : list A) (x : A) :
  In x (order_by pick before l) <-> In x l.
Proof.
  split; apply Permutation_in.
  - apply order_by_Permutation.
  - apply Permutation_sym, order_by_Permutation.
Qed.

Lemma order_by_length (pick : nat -> nat) (before : A -> A -> bool)
      (l : list A) :
  List.length (order_by pick before l) = List.length l.
Proof. apply Permutation_length, order_by_Permutation. Qed.

(** The arrangement leaves the order of ties open: every permutation of the
    rows is an arrangement, and every sorted permutation of the rows is the
    result of [order_by] for some choice of the executor. *)
Lemma place_at (a b : list A) (x : A) :
  place (List.length a) x (a ++ b) = (a ++ x :: b)%list.
Proof.
  unfold place.
  rewrite firstn_app, skipn_app, Nat.sub_diag, firstn_all, skipn_all.
  simpl. now rewrite app_nil_r.
Qed.

Lemma arrange_length (pick : nat -> nat) (l : list A) :
  List.length (arrange pick l) = List.length l.
Proof. apply Permutation_length, arrange_Permutation. Qed.

Lemma arrange_ext (pick pick' : nat -> nat) (l : list A) :
  (forall n, n < List.length l -> pick n = pick' n) ->
  arrange pick l = arrange pick' l.
Proof.
  induction l as [|x l IH]; simpl; intros H; [reflexivity|].
  rewrite IH by (intros n Hn; apply H; lia).
  rewrite arrange_length, H by lia. reflexivity.
Qed.

Lemma arrange_reaches (l l' : list A) :
  Permutation l l' -> exists pick, arrange pick l = l'.
Proof.
  revert l'. induction l as [|x l IH]; intros l' Hp.
  - apply Permutation_nil in Hp. subst. exists (fun _ => 0). reflexivity.
  - assert (Hin : In x l') by (apply (Permutation_in x Hp); now left).
    apply in_split in Hin. destruct Hin as (a & b & ->).
    apply Permutation_cons_app_inv in Hp.
    destruct (IH _ Hp) as (pick & Hpick).
    exists (fun n => if Nat.eqb n (List.length l) then List.length a
                     else pick n).
    simpl.
    rewrite (arrange_ext _ pick).
    + rewrite Hpick, (Permutation_length (Permutation_sym Hp)),
        Nat.eqb_refl.
      apply place_at.
    + intros n Hn. destruct (Nat.eqb_spec n (List.length l)); [lia|].
      reflexivity.
Qed.

Lemma sort_sorted_id (before : A -> A -> bool) (l : list A) :
  StronglySorted (fun x y => before y x = false) l ->
  fold_right (insert_row before) [] l = l.
Proof.
  induction 1 as [|x l Hs IH Hx]; simpl; [reflexivity|].
  rewrite IH. destruct l as [|y t]; [reflexivity|]. simpl.
  inversion Hx as [|? ? Hy _]; subst. now rewrite Hy.
Qed.

Lemma order_by_reaches (before : A -> A -> bool) (l l' : list A) :
  Permutation l l' ->
  StronglySorted (fun x y => before y x = false) l' ->
  exists pick, order_by pick before l = l'.
Proof.
  intros Hp Hs. destruct (arrange_reaches l l' Hp) as (pick & Hpick).
  exists pick. unfold order_by. rewrite Hpick. now apply sort_sorted_id.
Qed.

Lemma filter_Permutation (p : A -> bool) (l l' : list A) :
  Permutation l l' -> Permutation (filter p l) (filter p l').
Proof.
  induction 1 as [|x l l' _ IH|x y l|l l' l'' _ IH1 _ IH2]; simpl.
  - apply perm_nil.
  - destruct (p x); [apply perm_skip|]; exact IH.
  - destruct (p x), (p y);
      try apply perm_swap; try apply perm_skip; apply Permutation_refl.
  - eapply perm_trans; eassumption.
Qed.

(** Filtering an ordered result for a criterion that a single row of the
    unordered result meets gives that row. *)
Lemma filter_order_by_single (pick : nat -> nat) (before : A -> A -> bool)
      (p : A -> bool) (l : list A) (x : A) :
  filter p l = [x] -> filter p (order_by pick before l) = [x].
Proof.
  intros H. apply Permutation_length_1_inv. rewrite <- H.
  apply filter_Permutation, Permutation_sym, order_by_Permutation.
Qed.

Lemma filter_filter_comm (p q : A -> bool) (l : list A) :
  filter p (filter q l) = filter q (filter p l).
Proof.
  induction l as [|x l IH]; simpl; [reflexivity|].
  destruct (p x) eqn:Hp, (q x) eqn:Hq; simpl;
    rewrite ?Hp, ?Hq, IH; reflexivity.
Qed.

Lemma filter_none (p : A -> bool) (l : list A) :
  (forall x, In x l -> p x = false) -> filter p l = [].
Proof.
  induction l as [|x l IH]; simpl; intros H; [reflexivity|].
  rewrite (H x (or_introl eq_refl)). apply IH. intros y Hy. apply H. now right.
Qed.

Lemma filter_all (p : A -> bool) (l : list A) :
  (forall x, In x l -> p x = true) -> filter p l = l.
Proof.
  induction l as [|x l IH]; simpl; intros H; [reflexivity|].
  rewrite (H x (or_introl eq_refl)). f_equal. apply IH.
  intros y Hy. apply H. now right.
Qed.

(** In a table with a key, selecting on the key of one of its rows gives
    that row alone. *)
Lemma filter_unique_key {K : Type} (key : A -> K) (eqb : K -> K -> bool)
      (l : list A) (x : A) :
  (forall a b, eqb a b = true <-> a = b) ->
  NoDup (map key l) ->
  In x l ->
  filter (fun y => eqb (key y) (key x)) l = [x].
Proof.
  intros Heqb. induction l as [|y l IH]; simpl; intros Hnd Hin; [easy|].
  inversion Hnd as [|? ? Hy Hnd']; subst.
  destruct Hin as [->|Hin].
  - rewrite (proj2 (Heqb _ _) eq_refl). f_equal.
    apply filter_none. intros z Hz.
    destruct (eqb (key z) (key x)) eqn:E; [|reflexivity].
    apply Heqb in E. exfalso. apply Hy. rewrite <- E. now apply in_map.
  - destruct (eqb (key y) (key x)) eqn:E.
    + apply Heqb in E. exfalso. apply Hy. rewrite E. now apply in_map.
    + now apply IH.
Qed.

Lemma unique_key_eq {K : Type} (key : A -> K) (l : list A) (x y : A) :
  NoDup (map key l) -> In x l -> In y l -> key x = key y -> x = y.
Proof.
  induction l as [|z l IH]; simpl; intros Hnd Hx Hy E; [easy|].
  inversion Hnd as [|? ? Hz Hnd']; subst.
  destruct Hx as [->|Hx], Hy as [->|Hy]; auto.
  - exfalso. apply Hz. rewrite E. now apply in_map.
  - exfalso. apply Hz. rewrite <- E. now apply in_map.
Qed.

Lemma representatives_incl (same : A -> A -> bool) (rows : list A) (x : A) :
  In x (representatives same rows) -> In x rows.
Proof.
  induction rows as [|r rs IH]; simpl; [easy|].
  intros [->|H]; [now left | right].
  apply filter_In in H. now apply IH.
Qed.

Section Classes.

Variable same : A -> A -> bool.
Hypothesis same_refl : forall x, same x x = true.
Hypothesis same_trans :
  forall x y z, same x y = true -> same y z = true -> same x z = true.

(** Every row falls in the class of some representative. *)
Lemma representatives_cover (rows : list A) (x : A) :
  In x rows ->
  exists r, In r (representatives same rows) /\ same r x = true.
Proof.
  induction rows as [|r rs IH]; simpl; [easy|].
  intros [->|Hx].
  - exists x. auto.
  - destruct (IH Hx) as (r' & Hr' & Hs).
    destruct (same r r') eqn:E.
    + exists r. split; [now left | eapply same_trans; eassumption].
    + exists r'. split; [right | exact Hs].
      apply filter_In. now rewrite E.
Qed.

End Classes.

(** A criterion that singles out one class of [same] singles out at most one
    representative: the first row that meets it. *)
Lemma filter_representatives (same : A -> A -> bool) (q : A -> bool)
      (rows : list A) :
  (forall x y, q x = true -> q y = true -> same x y = true) ->
  (forall x y, same x y = true -> q y = true -> q x = true) ->
  filter q (representatives same rows)
  = match find q rows with Some r => [r] | None => [] end.
Proof.
  intros Hin Hout. induction rows as [|r rs IH]; simpl; [reflexivity|].
  destruct (q r) eqn:Hq.
  - f_equal. apply filter_none. intros x Hx.
    apply filter_In in Hx. destruct Hx as [_ Hx].
    destruct (q x) eqn:Hqx; [|reflexivity].
    rewrite (Hin r x Hq Hqx) in Hx. discriminate.
  - rewrite <- IH, filter_filter_comm. apply filter_all.
    intros x Hx. apply filter_In in Hx. destruct Hx as [_ Hqx].
    destruct (same r x) eqn:E; [|reflexivity].
    rewrite (Hout r x E Hqx) in Hq. discriminate.
Qed.

End RowFacts.

(** * Facts on SQL conditions *)

Lemma holds_and3 (a b : Sql.sbool) :
  Sql.holds (Sql.and3 a b) = true <->
  Sql.holds a = true /\ Sql.holds b = true.
Proof. destruct a as [[|]|], b as [[|]|]; simpl; intuition congruence. Qed.

Lemma holds_or3 (a b : Sql.sbool) :
  Sql.holds (Sql.or3 a b) = true <->
  Sql.holds a = true \/ Sql.holds b = true.
Proof. destruct a as [[|]|], b as [[|]|]; simpl; intuition congruence. Qed.

Lemma holds_is_true (x : option bool) :
  Sql.holds (Sql.cmp Bool.eqb x (Some true)) = true <-> x = Some true.
Proof. destruct x as [[|]|]; simpl; intuition congruence. Qed.

Lemma holds_is_null {A} (x : option A) :
  Sql.holds (Sql.is_null x) = true <-> x = None.
Proof. destruct x; simpl; intuition congruence. Qed.

Lemma holds_is_not_null {A} (x : option A) :
  Sql.holds (Sql.is_not_null x) = true <-> x <> None.
Proof. destruct x; simpl; intuition congruence. Qed.

Lemma holds_lt (x y : option Z) :
  Sql.holds (Sql.cmp Z.ltb x y) = true <->
  exists a b, x = Some a /\ y = Some b /\ (a < b)%Z.
Proof.
  destruct x as [a|], y as [b|]; simpl.
  - destruct (Z.ltb_spec a b); split.
    + intros _. exists a, b. auto.
    + reflexivity.
    + discriminate.
    + intros (a' & b' & Ha & Hb & Hlt). inversion Ha; inversion Hb; subst. lia.
  - split; [discriminate | intros (? & ? & _ & ? & _); discriminate].
  - split; [discriminate | intros (? & ? & ? & _); discriminate].
  - split; [discriminate | intros (? & ? & ? & _); discriminate].
Qed.

(** * Rule 1: completeness *)

Lemma missing_fields_of_spec (p : PatientRecords.row) :
  Completeness.missing_fields_of p = missing_field_set p.
Proof.
  unfold Completeness.missing_fields_of, missing_field_set.
  destruct (PatientRecords.name p), (PatientRecords.date_of_birth p),
    (PatientRecords.insurance_id p), (PatientRecords.primary_provider p),
    (PatientRecords.contact_phone p), (PatientRecords.contact_email p);
    reflexivity.
Qed.

Lemma completeness_query_In (db : database) (r : Completeness.row) :
  In r (Completeness.query db) <->
  exists p,
    In p (patient_records db)
    /\ Sql.holds (Completeness.where_clause p) = true
    /\ r = Completeness.select p.
Proof.
  unfold Completeness.query. rewrite in_map_iff. split.
  - intros (p & <- & Hp). apply filter_In in Hp. exists p. tauto.
  - intros (p & Hin & Hw & ->). exists p. split; [reflexivity|].
    apply filter_In. tauto.
Qed.

Lemma completeness_where_active (p : PatientRecords.row) :
  Sql.holds (Completeness.where_clause p) = true ->
  PatientRecords.is_active p = Some true.
Proof.
  unfold Completeness.where_clause. intros H.
  apply holds_and3 in H. destruct H as [H _].
  now apply holds_is_true in H.
Qed.

(** C5: every record the completeness rule flags is an active record whose
    finding is HIGH exactly when its missing-field set (the null required
    fields, plus the contact group when both contacts are null) has more
    than two elements, and MEDIUM otherwise; three missing fields give HIGH,
    one gives MEDIUM. *)
Theorem completeness_severity (db : database) (r : Completeness.row) :
  In r (Completeness.query db) ->
  exists p,
    In p (patient_records db)
    /\ PatientRecords.is_active p = Some true
    /\ r = Completeness.select p
    /\ Completeness.missing_fields r = missing_field_set p
    /\ (severity (Completeness.finding r) = HIGH
        <-> 2 < List.length (missing_field_set p))
    /\ (severity (Completeness.finding r) = MEDIUM
        <-> List.length (missing_field_set p) <= 2)
    /\ (List.length (missing_field_set p) = 3
        -> severity (Completeness.finding r) = HIGH)
    /\ (List.length (missing_field_set p) = 1
        -> severity (Completeness.finding r) = MEDIUM).
Proof.
  intros Hr. apply completeness_query_In in Hr.
  destruct Hr as (p & Hin & Hw & ->).
  exists p. split; [exact Hin|].
  split; [now apply completeness_where_active|].
  split; [reflexivity|].
  split; [apply missing_fields_of_spec|].
  unfold Completeness.finding; simpl.
  rewrite missing_fields_of_spec.
  destruct (Nat.ltb_spec 2 (List.length (missing_field_set p))) as [H|H].
  - repeat split; intros; try reflexivity; try lia; try discriminate.
  - repeat split; intros; try reflexivity; try lia; try discriminate.
Qed.

Lemma completeness_severity_witness :
  In (Completeness.select Sample.p1) (Completeness.query Sample.db)
  /\ exists p,
       In p (patient_records Sample.db)
       /\ PatientRecords.is_active p = Some true
       /\ Completeness.select Sample.p1 = Completeness.select p
       /\ Completeness.missing_fields (Completeness.select Sample.p1)
          = missing_field_set p
       /\ (severity (Completeness.finding (Completeness.select Sample.p1))
           = HIGH <-> 2 < List.length (missing_field_set p))
       /\ (severity (Completeness.finding (Completeness.select Sample.p1))
           = MEDIUM <-> List.length (missing_field_set p) <= 2)
       /\ (List.length (missing_field_set p) = 3
           -> severity (Completeness.finding (Completeness.select Sample.p1))
              = HIGH)
       /\ (List.length (missing_field_set p) = 1
           -> severity (Completeness.finding (Completeness.select Sample.p1))
              = MEDIUM).
Proof.
  split.
  - simpl. left. reflexivity.
  - apply (completeness_severity Sample.db). simpl. left. reflexivity.
Defined.

(** * Rule 3: temporal ordering *)

Lemma string_eqb_iff (a b : string) : String.eqb a b = true <-> a = b.
Proof. apply String.eqb_eq. Qed.

(** C7: a claim submitted before its service date gets exactly one finding,
    labelled "Submission before service", whatever its processing date is:
    the first arm of the CASE wins and the claim is not flagged twice. *)
Theorem temporal_first_label_wins
        (db : database) (c : Claims.row) (sub svc : date) :
  NoDup (map Claims.claim_id (claims db)) ->
  In c (claims db) ->
  Claims.submission_date c = Some sub ->
  Claims.service_date c = Some svc ->
  (sub < svc)%Z ->
  filter (fun f => String.eqb (record_id f) (Claims.claim_id c))
         (rule_findings temporal_anomalies db)
  = [ {| check_type := "temporal_check";
         table_name := "claims";
         record_id := Claims.claim_id c;
         issue_type := "temporal_anomaly";
         issue_description := Some "Submission before service";
         severity := HIGH |} ].
Proof.
  intros Hnd Hin Hsub Hsvc Hlt.
  assert (Hfirst : Sql.holds
            (Sql.cmp Z.ltb (Claims.submission_date c) (Claims.service_date c))
          = true).
  { apply holds_lt. exists sub, svc. auto. }
  unfold rule_findings, Temporal.query.
  rewrite map_map, filter_map_swap. simpl.
  rewrite filter_filter_comm.
  rewrite (filter_unique_key Claims.claim_id String.eqb (claims db) c
             string_eqb_iff Hnd Hin).
  simpl.
  replace (Sql.holds (Temporal.where_clause c)) with true.
  - simpl. unfold Temporal.finding, Temporal.select, Temporal.anomaly_type_of.
    simpl. rewrite Hfirst. reflexivity.
  - symmetry. unfold Temporal.where_clause. apply holds_or3. now left.
Qed.

Lemma temporal_first_label_wins_witness :
  filter (fun f => String.eqb (record_id f) (Claims.claim_id Sample.c1))
         (rule_findings temporal_anomalies Sample.db)
  = [ {| check_type := "temporal_check";
         table_name := "claims";
         record_id := "C1";
         issue_type := "temporal_anomaly";
         issue_description := Some "Submission before service";
         severity := HIGH |} ].
Proof.
  apply (temporal_first_label_wins Sample.db Sample.c1 5%Z 10%Z).
  - repeat constructor; simpl; intuition discriminate.
  - simpl. left. reflexivity.
  - reflexivity.
  - reflexivity.
  - lia.
Defined.

(** * Rule 5: credential expiry *)

Lemma credentials_query_In (db : database) (r : Credentials.row) :
  In r (Credentials.query db) <->
  exists p,
    In p (providers db)
    /\ Sql.holds (Credentials.where_clause db p) = true
    /\ r = Credentials.select db p.
Proof.
  unfold Credentials.query. rewrite order_by_In, in_map_iff. split.
  - intros (p & <- & Hp). apply filter_In in Hp. exists p. tauto.
  - intros (p & Hin & Hw & ->). exists p. split; [reflexivity|].
    apply filter_In. tauto.
Qed.

Lemma credentials_where (db : database) (p : Providers.row) :
  Sql.holds (Credentials.where_clause db p) = true <->
  (exists e,
     Providers.license_expiry_date p = Some e /\ (e < current_date db)%Z)
  /\ Providers.is_active p = Some true.
Proof.
  unfold Credentials.where_clause.
  rewrite holds_and3, holds_is_true, holds_lt. split.
  - intros [(a & b & Ha & Hb & Hlt) Hact]. inversion Hb; subst.
    split; [exists a; auto | exact Hact].
  - intros [(e & He & Hlt) Hact]. split; [|exact Hact].
    exists e, (current_date db). auto.
Qed.

(** C9: an active provider is flagged exactly when its licence expiry date
    is strictly before the current date, with days_expired the difference of
    the two dates in days: an expiry on the current date is not flagged, and
    an expiry one day before is flagged with days_expired = 1. *)
Theorem credentials_strict_expiry (db : database) (p : Providers.row) :
  NoDup (map Providers.provider_id (providers db)) ->
  In p (providers db) ->
  Providers.is_active p = Some true ->
  ((exists r,
       In r (Credentials.query db)
       /\ Credentials.provider_id r = Providers.provider_id p)
    <-> (exists e,
           Providers.license_expiry_date p = Some e
           /\ (e < current_date db)%Z))
  /\ (forall r,
        In r (Credentials.query db) ->
        Credentials.provider_id r = Providers.provider_id p ->
        exists e,
          Providers.license_expiry_date p = Some e
          /\ Credentials.days_expired r = Some (current_date db - e)%Z)
  /\ (Providers.license_expiry_date p = Some (current_date db) ->
      forall r,
        In r (Credentials.query db) ->
        Credentials.provider_id r <> Providers.provider_id p)
  /\ (Providers.license_expiry_date p = Some (current_date db - 1)%Z ->
      exists r,
        In r (Credentials.query db)
        /\ Credentials.provider_id r = Providers.provider_id p
        /\ Credentials.days_expired r = Some 1%Z
        /\ issue_description (Credentials.finding r)
           = Some "License expired 1 days ago"
        /\ severity (Credentials.finding r) = CRITICAL).
Proof.
  intros Hnd Hin Hact.
  assert (Hrow : forall r,
             In r (Credentials.query db) ->
             Credentials.provider_id r = Providers.provider_id p ->
             r = Credentials.select db p
             /\ exists e,
                  Providers.license_expiry_date p = Some e
                  /\ (e < current_date db)%Z).
  { intros r Hr Hid. apply credentials_query_In in Hr.
    destruct Hr as (p' & Hin' & Hw & ->). simpl in Hid.
    assert (p' = p) as ->
        by (eapply (unique_key_eq Providers.provider_id); eassumption).
    split; [reflexivity|]. now apply credentials_where in Hw. }
  assert (Hflag : forall e,
             Providers.license_expiry_date p = Some e ->
             (e < current_date db)%Z ->
             In (Credentials.select db p) (Credentials.query db)).
  { intros e He Hlt. apply credentials_query_In. exists p.
    split; [exact Hin|]. split; [|reflexivity].
    apply credentials_where. split; [exists e; auto | exact Hact]. }
  split; [|split; [|split]].
  - split.
    + intros (r & Hr & Hid). now destruct (Hrow r Hr Hid).
    + intros (e & He & Hlt). exists (Credentials.select db p).
      split; [eapply Hflag; eassumption | reflexivity].
  - intros r Hr Hid. destruct (Hrow r Hr Hid) as (-> & e & He & Hlt).
    exists e. split; [exact He|]. simpl. rewrite He. reflexivity.
  - intros He r Hr Hid. destruct (Hrow r Hr Hid) as (_ & e & He' & Hlt).
    rewrite He in He'. inversion He'; subst. lia.
  - intros He. exists (Credentials.select db p).
    split; [apply (Hflag _ He); lia|].
    split; [reflexivity|].
    unfold Credentials.finding. simpl. rewrite He. simpl.
    replace (current_date db - (current_date db - 1))%Z with 1%Z by lia.
    auto.
Qed.

Lemma credentials_strict_expiry_witness :
  (exists r,
     In r (Credentials.query Sample.db)
     /\ Credentials.provider_id r = "D1"
     /\ Credentials.days_expired r = Some 1%Z
     /\ issue_description (Credentials.finding r)
        = Some "License expired 1 days ago"
     /\ severity (Credentials.finding r) = CRITICAL)
  /\ (forall r,
        In r (Credentials.query Sample.db) ->
        Credentials.provider_id r <> "D2").
Proof.
  assert (Hkey : NoDup (map Providers.provider_id (providers Sample.db)))
    by (repeat constructor; simpl; intuition discriminate).
  split.
  - refine (proj2 (proj2 (proj2
      (credentials_strict_expiry Sample.db Sample.d1 Hkey _ _))) _).
    + simpl. left. reflexivity.
    + reflexivity.
    + reflexivity.
  - refine (proj1 (proj2 (proj2
      (credentials_strict_expiry Sample.db Sample.d2 Hkey _ _))) _).
    + simpl. right. left. reflexivity.
    + reflexivity.
    + reflexivity.
Defined.

(** * Rule 4: duplicate detection *)

Lemma duplicates_where (p : PatientRecords.row) :
  Sql.holds (Duplicates.where_clause p) = true <->
  PatientRecords.name p <> None
  /\ PatientRecords.date_of_birth p <> None
  /\ PatientRecords.is_active p = Some true.
Proof.
  unfold Duplicates.where_clause.
  rewrite !holds_and3, !holds_is_not_null, holds_is_true. tauto.
Qed.

Lemma has_key_iff (n : string) (d : date) (p : PatientRecords.row) :
  has_key n d p = true <->
  PatientRecords.name p = Some n /\ PatientRecords.date_of_birth p = Some d.
Proof.
  unfold has_key.
  destruct (PatientRecords.name p) as [n'|],
    (PatientRecords.date_of_birth p) as [d'|];
    try (split; [discriminate | intros [? ?]; discriminate]).
  rewrite andb_true_iff, String.eqb_eq, Z.eqb_eq.
  split; [intros [-> ->]; auto | intros [H1 H2]; inversion H1; inversion H2; auto].
Qed.

Lemma same_group_has_key (n : string) (d : date) (x y : PatientRecords.row) :
  has_key n d x = true ->
  Duplicates.same_group x y = has_key n d y.
Proof.
  intros Hx. apply has_key_iff in Hx. destruct Hx as [Hn Hd].
  unfold Duplicates.same_group, has_key. rewrite Hn, Hd.
  destruct (PatientRecords.name y), (PatientRecords.date_of_birth y);
    simpl; try reflexivity.
  now rewrite andb_false_r.
Qed.

Lemma shares_key_split (n : string) (d : date) (p : PatientRecords.row) :
  shares_key n d p = Sql.holds (Duplicates.where_clause p) && has_key n d p.
Proof.
  unfold shares_key, Duplicates.where_clause, has_key.
  destruct (PatientRecords.is_active p) as [[|]|],
    (PatientRecords.name p), (PatientRecords.date_of_birth p);
    reflexivity.
Qed.

Lemma filter_filter_andb {A} (p q : A -> bool) (l : list A) :
  filter p (filter q l) = filter (fun x => q x && p x) l.
Proof.
  induction l as [|x l IH]; simpl; [reflexivity|].
  destruct (q x); simpl; [destruct (p x)|]; rewrite IH; reflexivity.
Qed.

(** The group the query forms for a key is the set of active records that
    share it, in table order. *)
Lemma duplicates_group_of_key (db : database) (n : string) (d : date) :
  members db n d <> [] ->
  exists r0,
    has_key n d r0 = true
    /\ filter (fun g => has_key n d (fst g)) (Duplicates.groups db)
       = [(r0, members db n d)].
Proof.
  intros Hne. unfold Duplicates.groups, group_by.
  set (rows := filter (fun p => Sql.holds (Duplicates.where_clause p))
                 (patient_records db)).
  assert (Hmem : filter (has_key n d) rows = members db n d).
  { unfold rows, members. rewrite filter_filter_andb.
    apply filter_ext. intros p. now rewrite shares_key_split. }
  rewrite filter_map_swap. simpl.
  rewrite (filter_representatives Duplicates.same_group (has_key n d)).
  - destruct (find (has_key n d) rows) as [r0|] eqn:Ef.
    + apply find_some in Ef. destruct Ef as [_ Hk].
      exists r0. split; [exact Hk|]. simpl. f_equal. f_equal.
      rewrite <- Hmem. apply filter_ext. intros x.
      now apply same_group_has_key.
    + exfalso. apply Hne. rewrite <- Hmem. apply filter_none.
      intros x Hx. exact (find_none _ _ Ef x Hx).
  - intros x y Hx Hy. now rewrite (same_group_has_key n d x y Hx).
  - intros x y Hs Hy. apply has_key_iff in Hy. destruct Hy as [Hn Hd].
    unfold Duplicates.same_group in Hs. rewrite Hn, Hd in Hs.
    apply has_key_iff.
    destruct (PatientRecords.name x), (PatientRecords.date_of_birth x);
      simpl in Hs; try discriminate.
    + apply andb_true_iff in Hs. destruct Hs as [H1 H2].
      apply String.eqb_eq in H1. apply Z.eqb_eq in H2. now subst.
    + now rewrite andb_false_r in Hs.
Qed.

Lemma duplicates_query_In (db : database) (r : Duplicates.row) :
  In r (Duplicates.query db) <->
  exists g,
    In g (Duplicates.groups db)
    /\ Duplicates.having g = true
    /\ r = Duplicates.aggregate g.
Proof.
  unfold Duplicates.query. rewrite order_by_In, in_map_iff. split.
  - intros (g & <- & Hg). apply filter_In in Hg. exists g. tauto.
  - intros (g & Hin & Hh & ->). exists g. split; [reflexivity|].
    apply filter_In. tauto.
Qed.

Lemma duplicates_group_members (db : database) g (p : PatientRecords.row) :
  In g (Duplicates.groups db) ->
  In p (snd g) ->
  In p (patient_records db) /\ Sql.holds (Duplicates.where_clause p) = true.
Proof.
  unfold Duplicates.groups, group_by. intros Hg Hp.
  apply in_map_iff in Hg. destruct Hg as (r & <- & _). simpl in Hp.
  apply filter_In in Hp. destruct Hp as [Hp _].
  now apply filter_In in Hp.
Qed.

(** A row of the result always has a first identifier to report. *)
Lemma duplicates_finding_defined (db : database) :
  Forall (fun r => Duplicates.finding r <> None) (Duplicates.query db).
Proof.
  apply Forall_forall. intros r Hr. apply duplicates_query_In in Hr.
  destruct Hr as ((r0 & ms) & _ & Hh & ->).
  unfold Duplicates.having in Hh. simpl in Hh.
  unfold Duplicates.finding, Duplicates.aggregate. simpl.
  destruct ms as [|m ms]; simpl in *; [discriminate Hh | discriminate].
Qed.

Lemma fold_left_add_list_sum (l : list nat) :
  fold_left Nat.add l 0 = list_sum l.
Proof.
  unfold list_sum. apply fold_symmetric; intros; lia.
Qed.

Lemma remove_null_length_defined {A B} (g : A -> option B) (l : list A) :
  Forall (fun r => g r <> None) l ->
  List.length (Sql.array_remove_null (map g l)) = List.length l.
Proof.
  induction 1 as [|x l Hx _ IH]; simpl; [reflexivity|].
  destruct (g x); [simpl; now rewrite IH | congruence].
Qed.

(** C8: the active records that share a name and a birth date, when there
    are more than one, give exactly one row and one finding for the whole
    group: duplicate_count is the size of the group, the description lists
    the identifiers of all its members joined by commas, and the record
    reported is the first member.  issues_found counts the groups flagged,
    total_duplicates adds up their sizes. *)
Theorem duplicates_one_finding_per_group
        (db : database) (n : string) (d : date) :
  1 < List.length (members db n d) ->
  let ids := map PatientRecords.patient_id (members db n d) in
  let row := {| Duplicates.name := Some n;
                Duplicates.date_of_birth := Some d;
                Duplicates.duplicate_count := List.length (members db n d);
                Duplicates.patient_ids := ids |} in
  filter (row_for_key n d) (Duplicates.query db) = [row]
  /\ Duplicates.finding row
     = Some {| check_type := "duplicate_check";
               table_name := "patient_records";
               record_id := hd EmptyString ids;
               issue_type := "potential_duplicate";
               issue_description :=
                 Some ("Duplicate patients found: " ++ String.concat ", " ids);
               severity := MEDIUM |}
  /\ List.length (rule_findings duplicate_records db)
     = List.length (Duplicates.query db)
  /\ issues_found (rule_result duplicate_records db)
     = List.length (filter Duplicates.having (Duplicates.groups db))
  /\ total_duplicates (rule_result duplicate_records db)
     = Some (list_sum
               (map (fun g => List.length (snd g))
                  (filter Duplicates.having (Duplicates.groups db)))).
Proof.
  intros Hsize ids row.
  assert (Hne : members db n d <> [])
    by (intros E; rewrite E in Hsize; simpl in Hsize; lia).
  split; [|split; [|split; [|split]]].
  - unfold Duplicates.query. apply filter_order_by_single.
    rewrite filter_map_swap.
    change (fun a => row_for_key n d (Duplicates.aggregate a))
      with (fun a : PatientRecords.row * list PatientRecords.row =>
              has_key n d (fst a)).
    rewrite filter_filter_comm.
    destruct (duplicates_group_of_key db n d Hne) as (r0 & Hk & ->).
    simpl. unfold Duplicates.having at 1. simpl.
    replace (1 <? List.length (members db n d))%nat with true
      by (symmetry; now apply Nat.ltb_lt).
    simpl. unfold Duplicates.aggregate, row, ids. simpl.
    apply has_key_iff in Hk. destruct Hk as [-> ->]. reflexivity.
  - unfold Duplicates.finding, row. simpl. subst ids.
    destruct (members db n d) as [|m ms]; [congruence | reflexivity].
  - unfold rule_findings.
    apply remove_null_length_defined, duplicates_finding_defined.
  - simpl. unfold Duplicates.query.
    now rewrite order_by_length, length_map.
  - simpl. f_equal. unfold Duplicates.total_duplicates.
    rewrite fold_left_add_list_sum.
    assert (Hsum : list_sum
                     (map Duplicates.duplicate_count (Duplicates.query db))
                   = list_sum
                       (map (fun g => List.length (snd g))
                          (filter Duplicates.having (Duplicates.groups db)))).
    { unfold Duplicates.query.
      rewrite (Permutation_list_sum
                 (Permutation_map _ (order_by_Permutation _ _ _))).
      now rewrite map_map. }
    rewrite <- Hsum.
    destruct (Duplicates.query db); reflexivity.
Qed.

Lemma duplicates_one_finding_per_group_witness :
  filter (row_for_key "Ann" 100%Z) (Duplicates.query Sample.db)
  = [ {| Duplicates.name := Some "Ann";
         Duplicates.date_of_birth := Some 100%Z;
         Duplicates.duplicate_count := 3;
         Duplicates.patient_ids := ["P1"; "P2"; "P4"] |} ].
Proof.
  refine (proj1 (duplicates_one_finding_per_group Sample.db "Ann" 100%Z _)).
  simpl. lia.
Defined.

(** C10: a record whose name or birth date is null is in no group the
    duplicate rule forms; with identifiers as keys, its identifier appears in
    no row of the result and no finding reports it.  A table in which every
    record has a null name or birth date yields no finding at all, however
    many records it holds. *)
Theorem duplicates_skip_null_key (db : database) (p : PatientRecords.row) :
  In p (patient_records db) ->
  PatientRecords.name p = None \/ PatientRecords.date_of_birth p = None ->
  (forall g, In g (Duplicates.groups db) -> ~ In p (snd g))
  /\ (NoDup (map PatientRecords.patient_id (patient_records db)) ->
      (forall r,
         In r (Duplicates.query db) ->
         ~ In (PatientRecords.patient_id p) (Duplicates.patient_ids r))
      /\ (forall f,
            In f (rule_findings duplicate_records db) ->
            record_id f <> PatientRecords.patient_id p))
  /\ ((forall q,
         In q (patient_records db) ->
         PatientRecords.name q = None
         \/ PatientRecords.date_of_birth q = None) ->
      Duplicates.query db = []).
Proof.
  intros Hin Hnull.
  assert (Hout : forall g, In g (Duplicates.groups db) -> ~ In p (snd g)).
  { intros g Hg Hp.
    destruct (duplicates_group_members db g p Hg Hp) as [_ Hw].
    apply duplicates_where in Hw. destruct Hw as (Hn & Hd & _).
    destruct Hnull; congruence. }
  assert (Hids : NoDup (map PatientRecords.patient_id (patient_records db)) ->
                 forall r,
                   In r (Duplicates.query db) ->
                   ~ In (PatientRecords.patient_id p)
                        (Duplicates.patient_ids r)).
  { intros Hnd r Hr Hid. apply duplicates_query_In in Hr.
    destruct Hr as (g & Hg & _ & ->). simpl in Hid.
    apply in_map_iff in Hid. destruct Hid as (p' & Hid & Hp').
    destruct (duplicates_group_members db g p' Hg Hp') as [Hin' _].
    assert (p' = p) as ->
        by (eapply (unique_key_eq PatientRecords.patient_id); eassumption).
    exact (Hout g Hg Hp'). }
  split; [exact Hout|]. split.
  - intros Hnd. split; [now apply Hids|].
    intros f Hf Hrec. unfold rule_findings in Hf.
    assert (Hsrc : exists r,
               In r (Duplicates.query db) /\ Duplicates.finding r = Some f).
    { clear - Hf. induction (Duplicates.query db) as [|r l IH]; simpl in Hf.
      - contradiction.
      - destruct (Duplicates.finding r) as [f'|] eqn:E.
        + destruct Hf as [->|Hf].
          * exists r. split; [now left | exact E].
          * destruct (IH Hf) as (r' & Hr' & E'). exists r'. split; auto.
            now right.
        + destruct (IH Hf) as (r' & Hr' & E'). exists r'. split; auto.
          now right. }
    destruct Hsrc as (r & Hr & Ef).
    apply (Hids Hnd r Hr).
    unfold Duplicates.finding in Ef.
    destruct (Duplicates.patient_ids r) as [|i rest]; [discriminate|].
    inversion Ef; subst. simpl in Hrec. rewrite Hrec. now left.
  - intros Hall.
    destruct (Duplicates.query db) as [|r l] eqn:Eq; [reflexivity|].
    exfalso.
    assert (Hr : In r (Duplicates.query db)) by (rewrite Eq; now left).
    apply duplicates_query_In in Hr.
    destruct Hr as ((r0 & ms) & Hg & Hh & _).
    unfold Duplicates.having in Hh. simpl in Hh.
    destruct ms as [|m ms]; [discriminate|].
    destruct (duplicates_group_members db (r0, m :: ms) m Hg) as [Hm Hw];
      [now left|].
    apply duplicates_where in Hw. destruct Hw as (Hn & Hd & _).
    destruct (Hall m Hm); congruence.
Qed.

Lemma duplicates_skip_null_key_witness :
  (forall g, In g (Duplicates.groups Sample.db) -> ~ In Sample.p3 (snd g))
  /\ (forall r,
        In r (Duplicates.query Sample.db) ->
        ~ In "P3" (Duplicates.patient_ids r)).
Proof.
  assert (Hkey : NoDup (map PatientRecords.patient_id
                          (patient_records Sample.db)))
    by (repeat constructor; simpl; intuition discriminate).
  assert (Hin : In Sample.p3 (patient_records Sample.db))
    by (simpl; right; right; left; reflexivity).
  assert (Hnull : PatientRecords.name Sample.p3 = None
                  \/ PatientRecords.date_of_birth Sample.p3 = None)
    by (left; reflexivity).
  split.
  - exact (proj1 (duplicates_skip_null_key Sample.db Sample.p3 Hin Hnull)).
  - exact (proj1 (proj1 (proj2
      (duplicates_skip_null_key Sample.db Sample.p3 Hin Hnull)) Hkey)).
Defined.

(** * The checks as methods *)

Section CheckFacts.

Variable env : environment.
Variable db : database.

(** With a live connection and a query that comes back, a check hands its
    findings to [log_quality_issue] one by one and returns its dict, unless
    the rollback of a handler fails on the way. *)
Lemma check_cases (k : check_key) (s : checker) :
  connection s = Open ->
  query_fails env k = false ->
  exists s',
    connection s' = Open
    /\ executed (trace s') = (executed (trace s) ++ [k])%list
    /\ ((check_method k env db s = (Returned (rule_result k db), s')
         /\ attempted (trace s')
            = (attempted (trace s) ++ rule_findings k db)%list)
        \/ (check_method k env db s = (Raised InterfaceError, s')
            /\ handler_failed env)).
Proof.
  intros Hopen Hq.
  assert (Ho : connection (emit (Queried k) s) = Open) by exact Hopen.
  assert (Ha : attempted (trace (emit (Queried k) s)) = attempted (trace s))
    by (simpl; rewrite attempted_app; simpl; apply app_nil_r).
  assert (Hx : executed (trace (emit (Queried k) s))
               = (executed (trace s) ++ [k])%list)
    by (simpl; rewrite executed_app; reflexivity).
  destruct k; simpl;
    [ unfold check_patient_completeness
    | unfold check_claims_discrepancies
    | unfold check_temporal_anomalies
    | unfold check_duplicate_records
    | unfold check_provider_credentials ];
    unfold bind at 1 3; rewrite (execute_query_ok env db _ _ s Hopen Hq);
    unfold bind, ret.
  - destruct (for_each_log_cases_total env Completeness.finding
                (Completeness.query db) _ Ho)
      as (s' & O & Ex & [[E At]|[E Hf]]);
      rewrite E; exists s'; rewrite Ex, Hx; rewrite ?At, ?Ha; auto.
  - destruct (for_each_log_cases_total env (Discrepancies.finding db)
                (Discrepancies.query db) _ Ho)
      as (s' & O & Ex & [[E At]|[E Hf]]);
      rewrite E; exists s'; rewrite Ex, Hx; rewrite ?At, ?Ha; auto.
  - destruct (for_each_log_cases_total env Temporal.finding
                (Temporal.query db) _ Ho)
      as (s' & O & Ex & [[E At]|[E Hf]]);
      rewrite E; exists s'; rewrite Ex, Hx; rewrite ?At, ?Ha; auto.
  - destruct (for_each_log_cases env Duplicates.finding (Duplicates.query db)
                (duplicates_finding_defined db) _ Ho)
      as (s' & O & Ex & [[E At]|[E Hf]]);
      unfold log_row in E;
      rewrite E; exists s'; rewrite Ex, Hx; rewrite ?At, ?Ha; auto.
  - destruct (for_each_log_cases_total env Credentials.finding
                (Credentials.query db) _ Ho)
      as (s' & O & Ex & [[E At]|[E Hf]]);
      rewrite E; exists s'; rewrite Ex, Hx; rewrite ?At, ?Ha; auto.
Qed.

(** When the rollback of the handler never fails, the check returns. *)
Lemma check_returns (k : check_key) (s : checker) :
  rollback_safe env ->
  connection s = Open ->
  query_fails env k = false ->
  exists s',
    check_method k env db s = (Returned (rule_result k db), s')
    /\ connection s' = Open
    /\ attempted (trace s')
       = (attempted (trace s) ++ rule_findings k db)%list
    /\ executed (trace s') = (executed (trace s) ++ [k])%list.
Proof.
  intros Hsafe Hopen Hq.
  destruct (check_cases k s Hopen Hq) as (s' & O & X & [[E At]|[_ Hf]]).
  - exists s'. auto.
  - exfalso. exact (rollback_safe_handler env Hsafe Hf).
Qed.

(** Without a live connection, or when the query fails, the error leaves the
    check at once. *)
Lemma check_raises (k : check_key) (s : checker) :
  connection s <> Open \/ query_fails env k = true ->
  check_method k env db s
  = (Raised (DataAccessError k), emit (QueryFailed k) s).
Proof.
  intros H.
  destruct k; simpl;
    [ unfold check_patient_completeness
    | unfold check_claims_discrepancies
    | unfold check_temporal_anomalies
    | unfold check_duplicate_records
    | unfold check_provider_credentials ];
    unfold bind at 1; rewrite (execute_query_raises env db _ _ s H);
    reflexivity.
Qed.

End CheckFacts.

(** * Rule 2: amount reconciliation *)

Lemma Qlt_bool_iff (x y : Q) : Sql.Qlt_bool x y = true <-> (x < y)%Q.
Proof.
  unfold Sql.Qlt_bool. rewrite negb_true_iff. split.
  - intros H. apply Qnot_le_lt. intros Hle.
    apply Qle_bool_iff in Hle. congruence.
  - intros H. destruct (Qle_bool y x) eqn:E; [|reflexivity].
    apply Qle_bool_iff in E. exfalso. exact (Qlt_not_le _ _ H E).
Qed.

Lemma not_distinct_refl {A} (eqb : A -> A -> bool) :
  (forall a, eqb a a = true) ->
  forall x, Sql.not_distinct eqb x x = true.
Proof. intros H [a|]; simpl; auto. Qed.

Lemma not_distinct_trans {A} (eqb : A -> A -> bool) :
  (forall a b c, eqb a b = true -> eqb b c = true -> eqb a c = true) ->
  forall x y z,
    Sql.not_distinct eqb x y = true ->
    Sql.not_distinct eqb y z = true ->
    Sql.not_distinct eqb x z = true.
Proof.
  intros H [a|] [b|] [c|]; simpl; try discriminate; auto. apply H.
Qed.

Lemma string_eqb_trans (a b c : string) :
  String.eqb a b = true -> String.eqb b c = true -> String.eqb a c = true.
Proof. rewrite !String.eqb_eq. congruence. Qed.

Lemma discrepancies_same_refl (j : Discrepancies.joined) :
  Discrepancies.same_group j j = true.
Proof.
  unfold Discrepancies.same_group.
  rewrite String.eqb_refl,
    !(not_distinct_refl String.eqb String.eqb_refl),
    (not_distinct_refl Qeq_bool Qeq_bool_refl).
  reflexivity.
Qed.

Lemma discrepancies_same_trans (x y z : Discrepancies.joined) :
  Discrepancies.same_group x y = true ->
  Discrepancies.same_group y z = true ->
  Discrepancies.same_group x z = true.
Proof.
  unfold Discrepancies.same_group. rewrite !andb_true_iff.
  intros [[[H1 H2] H3] H4] [[[G1 G2] G3] G4].
  repeat split.
  - eapply string_eqb_trans; eassumption.
  - eapply (not_distinct_trans String.eqb string_eqb_trans); eassumption.
  - eapply (not_distinct_trans String.eqb string_eqb_trans); eassumption.
  - eapply (not_distinct_trans Qeq_bool Qeq_bool_trans); eassumption.
Qed.

Lemma discrepancies_same_claim_id (x y : Discrepancies.joined) :
  Discrepancies.same_group x y = true ->
  Claims.claim_id (fst x) = Claims.claim_id (fst y).
Proof.
  unfold Discrepancies.same_group. rewrite !andb_true_iff.
  intros [[[H _] _] _]. now apply String.eqb_eq.
Qed.

Lemma discrepancies_same_claim (x y : Discrepancies.joined) :
  fst x = fst y -> Discrepancies.same_group x y = true.
Proof.
  intros E. rewrite <- (discrepancies_same_refl x).
  unfold Discrepancies.same_group. now rewrite E.
Qed.

Lemma join_rows_fst lis (c : Claims.row) (j : Discrepancies.joined) :
  In j (Discrepancies.join_rows lis c) -> fst j = c.
Proof.
  unfold Discrepancies.join_rows.
  destruct (filter _ lis) as [|m ms].
  - intros [<-|[]]. reflexivity.
  - intros H. apply in_map_iff in H. destruct H as (li & <- & _). reflexivity.
Qed.

Lemma join_rows_inhabited lis (c : Claims.row) :
  exists j, In j (Discrepancies.join_rows lis c).
Proof.
  unfold Discrepancies.join_rows.
  destruct (filter _ lis) as [|m ms]; eexists; left; reflexivity.
Qed.

Lemma left_join_fst cs lis (j : Discrepancies.joined) :
  In j (Discrepancies.left_join cs lis) -> In (fst j) cs.
Proof.
  unfold Discrepancies.left_join. rewrite in_flat_map.
  intros (c & Hc & Hj). now rewrite (join_rows_fst lis c j Hj).
Qed.

(** With [claim_id] a key, the group of a claim is the claim's own rows of
    the join. *)
Lemma group_of_claim cs lis (c : Claims.row) (j : Discrepancies.joined) :
  NoDup (map Claims.claim_id cs) ->
  In c cs ->
  fst j = c ->
  filter (Discrepancies.same_group j) (Discrepancies.left_join cs lis)
  = Discrepancies.join_rows lis c.
Proof.
  intros Hnd Hin Hj. unfold Discrepancies.left_join.
  induction cs as [|c' cs IH]; simpl; [easy|].
  inversion Hnd as [|? ? Hc' Hnd']; subst.
  rewrite filter_app.
  destruct Hin as [->|Hin].
  - rewrite filter_all, filter_none; [apply app_nil_r | |].
    + intros x Hx. apply in_flat_map in Hx. destruct Hx as (c2 & Hc2 & Hx).
      destruct (Discrepancies.same_group j x) eqn:E; [|reflexivity].
      apply discrepancies_same_claim_id in E.
      rewrite (join_rows_fst lis c2 x Hx) in E.
      exfalso. apply Hc'. rewrite E. now apply in_map.
    + intros x Hx. apply discrepancies_same_claim.
      now rewrite (join_rows_fst lis _ x Hx).
  - rewrite filter_none, (IH Hnd' Hin); [reflexivity|].
    intros x Hx.
    destruct (Discrepancies.same_group j x) eqn:E; [|reflexivity].
    apply discrepancies_same_claim_id in E.
    rewrite (join_rows_fst lis c' x Hx) in E.
    exfalso. apply Hc'. rewrite <- E. now apply in_map.
Qed.

Lemma fold_left_Qplus (vs : list Q) (a : Q) :
  (fold_left Qplus vs a == a + fold_right Qplus 0 vs)%Q.
Proof.
  revert a. induction vs as [|v vs IH]; intros a; simpl.
  - now rewrite Qplus_0_r.
  - rewrite IH. now rewrite Qplus_assoc.
Qed.

(** The calculated total of a claim's group is the sum of the amounts of its
    line items, 0 when it has none. *)
Lemma join_rows_total (db : database) (c : Claims.row) :
  (Sql.coalesce
     (Sql.sum
        (map Discrepancies.cli_amount
           (Discrepancies.join_rows (claims_line_items db) c)))
     0
   == sum_of_child_amounts db c)%Q.
Proof.
  unfold Discrepancies.join_rows, sum_of_child_amounts.
  replace (filter _ (claims_line_items db)) with (children db c).
  2:{ unfold children. apply filter_ext. intros li.
      destruct (ClaimsLineItems.claim_id li) as [i|]; simpl; [|reflexivity].
      now destruct (String.eqb (Claims.claim_id c) i). }
  destruct (children db c) as [|m ms] eqn:E.
  - simpl. reflexivity.
  - rewrite map_map.
    change (map (fun x => Discrepancies.cli_amount (c, Some x)) (m :: ms))
      with (map ClaimsLineItems.line_item_amount (m :: ms)).
    unfold Sql.sum.
    destruct (Sql.array_remove_null
                (map ClaimsLineItems.line_item_amount (m :: ms)))
      as [|v vs]; simpl.
    + reflexivity.
    + apply fold_left_Qplus.
Qed.

Lemma totals_of_claim (db : database) (c : Claims.row) :
  NoDup (map Claims.claim_id (claims db)) ->
  In c (claims db) ->
  let t := Discrepancies.aggregate
             ((c, None),
              Discrepancies.join_rows (claims_line_items db) c) in
  In t (Discrepancies.claim_line_totals db)
  /\ forall t',
       In t' (Discrepancies.claim_line_totals db) ->
       Discrepancies.t_claim_id t' = Claims.claim_id c ->
       t' = t.
Proof.
  intros Hnd Hin t.
  set (lis := claims_line_items db) in *.
  set (joined := Discrepancies.left_join (claims db) lis).
  assert (Hrep : forall rep,
             In rep (representatives Discrepancies.same_group joined) ->
             Claims.claim_id (fst rep) = Claims.claim_id c ->
             Discrepancies.aggregate
               (rep, filter (Discrepancies.same_group rep) joined) = t).
  { intros rep Hrep Hid.
    assert (Hc : In (fst rep) (claims db))
      by (eapply left_join_fst, representatives_incl; exact Hrep).
    assert (E : fst rep = c)
      by (eapply (unique_key_eq Claims.claim_id); eassumption).
    unfold joined. rewrite (group_of_claim _ lis c rep Hnd Hin E).
    destruct rep as [c' x]. simpl in E. subst c'. reflexivity. }
  split.
  - destruct (join_rows_inhabited lis c) as (j & Hj).
    assert (Hjoin : In j joined).
    { unfold joined, Discrepancies.left_join. apply in_flat_map.
      exists c. auto. }
    destruct (representatives_cover Discrepancies.same_group
                discrepancies_same_refl discrepancies_same_trans
                joined j Hjoin) as (rep & Hrep' & Hs).
    apply discrepancies_same_claim_id in Hs.
    rewrite (join_rows_fst lis c j Hj) in Hs.
    unfold Discrepancies.claim_line_totals, group_by. fold lis. fold joined.
    rewrite map_map. apply in_map_iff. exists rep.
    split; [now apply Hrep | exact Hrep'].
  - intros t' Ht' Hid.
    unfold Discrepancies.claim_line_totals, group_by in Ht'.
    fold lis in Ht'. fold joined in Ht'.
    rewrite map_map in Ht'. apply in_map_iff in Ht'.
    destruct Ht' as (rep & <- & Hrep'). now apply Hrep.
Qed.

Lemma discrepancies_query_In (db : database) (r : Discrepancies.row) :
  In r (Discrepancies.query db) <->
  exists t,
    In t (Discrepancies.claim_line_totals db)
    /\ Sql.holds (Discrepancies.where_clause t) = true
    /\ r = Discrepancies.select t.
Proof.
  unfold Discrepancies.query. rewrite order_by_In, in_map_iff. split.
  - intros (t & <- & Ht). apply filter_In in Ht. exists t. tauto.
  - intros (t & Hin & Hw & ->). exists t. split; [reflexivity|].
    apply filter_In. tauto.
Qed.

Lemma discrepancies_where (t : Discrepancies.totals) :
  Sql.holds (Discrepancies.where_clause t) = true <->
  exists s,
    Discrepancies.t_claim_total_amount t = Some s
    /\ ((1 # 100) < Qabs (s - Discrepancies.t_calculated_total t))%Q.
Proof.
  unfold Discrepancies.where_clause, Discrepancies.abs_difference.
  destruct (Discrepancies.t_claim_total_amount t) as [s|];
    unfold Sql.lift2, Sql.lift1, Sql.cmp, Sql.holds.
  - destruct (Sql.Qlt_bool (1 # 100)
                (Qabs (s - Discrepancies.t_calculated_total t))) eqn:E.
    + apply Qlt_bool_iff in E. split; [|reflexivity].
      intros _. exists s. auto.
    + split; [discriminate|]. intros (s' & Hs & Hlt).
      inversion Hs; subst. apply Qlt_bool_iff in Hlt. congruence.
  - split; [discriminate | intros (? & ? & _); discriminate].
Qed.

(** C6: with [claim_id] a key of [claims], a claim is flagged exactly when
    its stated total differs from the sum of its line items' amounts (0 when
    it has none) by more than 0.01.  A claim whose stated total is 0 never
    makes the query or the check fail: every row reported for it carries a
    NULL percentage, such a row is reported as soon as the claim is flagged,
    and the check returns its result; the one error that can leave the
    check once its query is back is that of a rollback failing in the audit
    handler. *)
Theorem discrepancy_flagging (db : database) (c : Claims.row) :
  NoDup (map Claims.claim_id (claims db)) ->
  In c (claims db) ->
  ((exists r,
       In r (Discrepancies.query db)
       /\ Discrepancies.claim_id r = Claims.claim_id c)
    <-> (exists s,
           Claims.claim_total_amount c = Some s
           /\ ((1 # 100) < Qabs (s - sum_of_child_amounts db c))%Q))
  /\ (forall s,
        Claims.claim_total_amount c = Some s ->
        (s == 0)%Q ->
        (forall r,
           In r (Discrepancies.query db) ->
           Discrepancies.claim_id r = Claims.claim_id c ->
           Discrepancies.discrepancy_percentage r = None)
        /\ (((1 # 100) < Qabs (s - sum_of_child_amounts db c))%Q ->
            exists r,
              In r (Discrepancies.query db)
              /\ Discrepancies.claim_id r = Claims.claim_id c
              /\ Discrepancies.discrepancy_percentage r = None))
  /\ (forall env st,
        connection st = Open ->
        query_fails env claims_discrepancies = false ->
        exists st',
          (check_claims_discrepancies env db st
           = (Returned (rule_result claims_discrepancies db), st')
           \/ check_claims_discrepancies env db st
              = (Raised InterfaceError, st'))
          /\ (rollback_safe env ->
              check_claims_discrepancies env db st
              = (Returned (rule_result claims_discrepancies db), st'))).
Proof.
  intros Hnd Hin.
  destruct (totals_of_claim db c Hnd Hin) as [Ht Huniq].
  set (t := Discrepancies.aggregate
              ((c, None), Discrepancies.join_rows (claims_line_items db) c))
    in *.
  assert (Hst : Discrepancies.t_claim_total_amount t
                = Claims.claim_total_amount c) by reflexivity.
  assert (Hcalc : (Discrepancies.t_calculated_total t
                   == sum_of_child_amounts db c)%Q)
    by apply join_rows_total.
  assert (Hw : Sql.holds (Discrepancies.where_clause t) = true <->
               exists s,
                 Claims.claim_total_amount c = Some s
                 /\ ((1 # 100) < Qabs (s - sum_of_child_amounts db c))%Q).
  { rewrite discrepancies_where, Hst.
    split; intros (s & Hs & Hlt); exists s; (split; [exact Hs|]).
    - now rewrite <- Hcalc.
    - now rewrite Hcalc. }
  assert (Hrow : forall r,
             In r (Discrepancies.query db) ->
             Discrepancies.claim_id r = Claims.claim_id c ->
             r = Discrepancies.select t
             /\ Sql.holds (Discrepancies.where_clause t) = true).
  { intros r Hr Hid. apply discrepancies_query_In in Hr.
    destruct Hr as (t' & Ht' & Hw' & ->). simpl in Hid.
    rewrite (Huniq t' Ht' Hid) in *. auto. }
  assert (Hflag : Sql.holds (Discrepancies.where_clause t) = true ->
                  In (Discrepancies.select t) (Discrepancies.query db)).
  { intros H. apply discrepancies_query_In. exists t. auto. }
  assert (Hnull : forall s,
             Claims.claim_total_amount c = Some s ->
             (s == 0)%Q ->
             Discrepancies.discrepancy_percentage (Discrepancies.select t)
             = None).
  { intros s Hs Hz. simpl.
    unfold Discrepancies.percentage, Discrepancies.abs_difference.
    rewrite Hst, Hs. unfold Sql.nullif_zero.
    rewrite (Qeq_eq_bool _ _ Hz). reflexivity. }
  split; [|split].
  - split.
    + intros (r & Hr & Hid). apply Hw. now destruct (Hrow r Hr Hid).
    + intros H. exists (Discrepancies.select t).
      split; [apply Hflag, Hw, H | reflexivity].
  - intros s Hs Hz. split.
    + intros r Hr Hid. destruct (Hrow r Hr Hid) as [-> _].
      now apply (Hnull s).
    + intros Hlt. exists (Discrepancies.select t).
      split; [|split; [reflexivity | now apply (Hnull s)]].
      apply Hflag, Hw. exists s. auto.
  - intros env st Hopen Hq.
    destruct (check_cases env db claims_discrepancies st Hopen Hq)
      as (st' & _ & _ & [[E _]|[E Hf]]); exists st'.
    + split; [left; exact E | intros _; exact E].
    + split; [right; exact E|].
      intros Hsafe. exfalso. exact (rollback_safe_handler env Hsafe Hf).
Qed.

Lemma discrepancy_flagging_witness :
  exists r,
    In r (Discrepancies.query Sample.db)
    /\ Discrepancies.claim_id r = "C2"
    /\ Discrepancies.discrepancy_percentage r = None.
Proof.
  assert (Hkey : NoDup (map Claims.claim_id (claims Sample.db)))
    by (repeat constructor; simpl; intuition discriminate).
  assert (Hin : In Sample.c2 (claims Sample.db))
    by (simpl; right; left; reflexivity).
  refine (proj2 (proj1 (proj2
    (discrepancy_flagging Sample.db Sample.c2 Hkey Hin)) 0%Q _ _) _).
  - reflexivity.
  - reflexivity.
  - vm_compute. reflexivity.
Defined.

(** * The run as a whole *)

Lemma preserves_ret {A} (a : A) : preserves_connection (ret a).
Proof. intros s. reflexivity. Qed.

Lemma preserves_raise {A} (e : exn) : preserves_connection (@raise A e).
Proof. intros s. reflexivity. Qed.

Lemma preserves_bind {A B} (m : M A) (k : A -> M B) :
  preserves_connection m ->
  (forall a, preserves_connection (k a)) ->
  preserves_connection (bind m k).
Proof.
  intros Hm Hk s. unfold bind. specialize (Hm s).
  destruct (m s) as [[a|e] s1]; simpl in *.
  - now rewrite Hk.
  - exact Hm.
Qed.

Lemma preserves_for_each {A} (rows : list A) (body : A -> M unit) :
  (forall r, preserves_connection (body r)) ->
  preserves_connection (for_each rows body).
Proof.
  intros Hb. induction rows as [|r rows IH]; simpl.
  - apply preserves_ret.
  - apply preserves_bind; [apply Hb | intros _; exact IH].
Qed.

Lemma preserves_execute_query {A} env db k (q : database -> list A) :
  preserves_connection (execute_query env db k q).
Proof.
  intros s. unfold execute_query.
  destruct (connection s) eqn:E; [| destruct (query_fails env k) |];
    simpl; now rewrite ?E.
Qed.

Lemma preserves_log_quality_issue env (f : Finding) :
  preserves_connection (log_quality_issue env f).
Proof.
  intros s. unfold log_quality_issue.
  destruct (connection s) eqn:E;
    [| destruct (write_fails env (List.length (trace s)));
       [destruct (rollback_fails env (List.length (trace s)))|] |];
    simpl; now rewrite ?E.
Qed.

Create HintDb conn.

#[local] Hint Resolve preserves_ret preserves_raise preserves_execute_query
  preserves_log_quality_issue : conn.

(** No check opens or closes the connection, however it ends. *)
Lemma check_preserves_connection env db (k : check_key) :
  preserves_connection (check_method k env db).
Proof.
  destruct k; simpl;
    (apply preserves_bind; [auto with conn|]; intros rows;
     apply preserves_bind; [|intros; auto with conn];
     apply preserves_for_each; intros r; auto with conn).
  destruct (Duplicates.finding r); auto with conn.
Qed.

Lemma all_checks_preserves_connection env db :
  preserves_connection (all_checks env db).
Proof.
  unfold all_checks.
  apply preserves_bind;
    [apply (check_preserves_connection env db patient_completeness)|];
    intros r1.
  apply preserves_bind;
    [apply (check_preserves_connection env db claims_discrepancies)|];
    intros r2.
  apply preserves_bind;
    [apply (check_preserves_connection env db temporal_anomalies)|];
    intros r3.
  apply preserves_bind;
    [apply (check_preserves_connection env db duplicate_records)|];
    intros r4.
  apply preserves_bind;
    [apply (check_preserves_connection env db provider_credentials)|];
    intros r5.
  apply preserves_ret.
Qed.

(** C4: when the connection is acquired, it is closed when
    [run_all_checks] ends, whether the run returns a report or a check
    raises, and closing it is the last thing the run does. *)
Theorem connection_released (env : environment) (db : database) (s : checker) :
  connect_fails env = false ->
  connection (snd (run_all_checks env db s)) = Closed
  /\ exists t, trace (snd (run_all_checks env db s)) = (t ++ [Disconnected])%list.
Proof.
  intros Hc. unfold run_all_checks, bind, connect. rewrite Hc.
  unfold try_finally.
  match goal with |- context [all_checks env db ?s0] =>
    pose proof (all_checks_preserves_connection env db s0) as Hp;
    destruct (all_checks env db s0) as [r s1]
  end.
  simpl in Hp. unfold disconnect. rewrite Hp. simpl.
  split; [reflexivity | eexists; reflexivity].
Qed.

Lemma connection_released_witness :
  connection (snd (run_all_checks Sample.one_query_down Sample.db new_checker))
  = Closed
  /\ exists t,
       trace (snd (run_all_checks Sample.one_query_down Sample.db new_checker))
       = (t ++ [Disconnected])%list.
Proof.
  apply (connection_released Sample.one_query_down Sample.db new_checker).
  reflexivity.
Defined.

Lemma sum_issues_list_sum (cs : list (check_key * RuleResult)) :
  sum_issues cs = list_sum (map (fun kv => issues_found (snd kv)) cs).
Proof. apply fold_left_add_list_sum. Qed.

(** C2: the summary of a report is computed from its checks: the total is
    the sum of their issues_found, and the status is FAIL when that sum is
    positive and PASS when it is zero. *)
Theorem summary_from_results
        (env : environment) (db : database) (s s' : checker) (rep : Report) :
  run_all_checks env db s = (Returned rep, s') ->
  let total := list_sum (map (fun kv => issues_found (snd kv)) (checks rep)) in
  total_issues_found (summary rep) = total
  /\ (0 < total -> status (summary rep) = FAIL)
  /\ (total = 0 -> status (summary rep) = PASS).
Proof.
  intros Hrun total.
  apply bind_returned in Hrun. destruct Hrun as (u & s0 & _ & Hrun).
  apply try_finally_returned in Hrun. destruct Hrun as (s1 & Hbody).
  unfold all_checks in Hbody.
  apply bind_returned in Hbody. destruct Hbody as (r1 & t1 & _ & Hbody).
  apply bind_returned in Hbody. destruct Hbody as (r2 & t2 & _ & Hbody).
  apply bind_returned in Hbody. destruct Hbody as (r3 & t3 & _ & Hbody).
  apply bind_returned in Hbody. destruct Hbody as (r4 & t4 & _ & Hbody).
  apply bind_returned in Hbody. destruct Hbody as (r5 & t5 & _ & Hbody).
  unfold ret in Hbody. inversion Hbody; subst rep; clear Hbody.
  subst total. cbv zeta. cbn [checks summary total_issues_found status].
  rewrite sum_issues_list_sum.
  split; [reflexivity|]. split; intros H.
  - apply Nat.ltb_lt in H. now rewrite H.
  - now rewrite H.
Qed.

Lemma summary_from_results_witness :
  exists rep s',
    run_all_checks Sample.lossy Sample.db new_checker = (Returned rep, s')
    /\ total_issues_found (summary rep) = 11
    /\ status (summary rep) = FAIL.
Proof.
  destruct (run_all_checks Sample.lossy Sample.db new_checker)
    as [[rep|e] s'] eqn:E; [|vm_compute in E; discriminate E].
  exists rep, s'. split; [reflexivity|].
  destruct (summary_from_results _ _ _ _ _ E) as (Ht & Hf & _).
  assert (Hsum : list_sum (map (fun kv => issues_found (snd kv)) (checks rep))
                 = 11)
    by (vm_compute in E; inversion E; reflexivity).
  rewrite Hsum in Ht, Hf. split; [exact Ht | apply Hf; lia].
Defined.

(** ** A query that fails *)

Lemma rank_inj (a b : check_key) : rank a = rank b -> a = b.
Proof. destruct a, b; simpl; intros H; try reflexivity; discriminate H. Qed.

Lemma executed_query_failed (k : check_key) (s : checker) :
  executed (trace (emit (QueryFailed k) s)) = (executed (trace s) ++ [k])%list.
Proof. simpl. now rewrite executed_app. Qed.

Lemma connected_readings (s : checker) :
  connection (connected s) = Open
  /\ executed (trace (connected s)) = executed (trace s)
  /\ attempted (trace (connected s)) = attempted (trace s)
  /\ quality_audit_log (connected s) = quality_audit_log s.
Proof.
  simpl. rewrite executed_app, attempted_app. simpl.
  now rewrite !app_nil_r.
Qed.

Lemma closed_readings (s : checker) :
  connection (closed s) = Closed
  /\ executed (trace (closed s)) = executed (trace s)
  /\ attempted (trace (closed s)) = attempted (trace s)
  /\ quality_audit_log (closed s) = quality_audit_log s.
Proof.
  simpl. rewrite executed_app, attempted_app. simpl.
  now rewrite !app_nil_r.
Qed.

(** The two ways a run starts. *)
Lemma run_without_connection env db (s : checker) :
  connect_fails env = true ->
  run_all_checks env db s = (Raised ConnectionError, s).
Proof.
  intros Hc. unfold run_all_checks, bind, connect. now rewrite Hc.
Qed.

Lemma run_with_connection env db (s : checker) :
  connect_fails env = false ->
  run_all_checks env db s
  = (fst (all_checks env db (connected s)),
     closed (snd (all_checks env db (connected s)))).
Proof.
  intros Hc. unfold run_all_checks, bind, connect. rewrite Hc.
  unfold try_finally. fold (connected s).
  pose proof (all_checks_preserves_connection env db (connected s)) as Hp.
  destruct (all_checks env db (connected s)) as [r s1].
  simpl in Hp. unfold disconnect. rewrite Hp. reflexivity.
Qed.

Section Run.

Variable env : environment.
Variable db : database.

Ltac gather :=
  repeat match goal with
         | H : executed (trace _) = _ |- _ => rewrite H; clear H
         | H : attempted (trace _) = _ |- _ => rewrite H; clear H
         end;
  rewrite <- ?app_assoc; reflexivity.

Ltac step K method :=
  match goal with
  | Erun : bind (method env db) _ ?st = _, Ho : connection ?st = Open |- _ =>
      let Q := fresh "Q" in
      let E := fresh "E" in
      unfold bind at 1 in Erun;
      destruct (query_fails env K) eqn:Q;
      [ pose proof (check_raises env db K st (or_intror Q)) as E;
        change (check_method K env db st) with (method env db st) in E;
        rewrite E in Erun; clear E
      | let st' := fresh "st" in
        let O := fresh "O" in
        let X := fresh "X" in
        let At := fresh "At" in
        let Hf := fresh "Hf" in
        destruct (check_cases env db K st Ho Q)
          as (st' & O & X & [[E At]|[E Hf]]);
        change (check_method K env db st) with (method env db st) in E;
        rewrite E in Erun; clear E ]
  end.

Ltac query_raised K :=
  match goal with
  | Erun : (Raised _, _) = _ |- _ => inversion Erun; subst; clear Erun
  end;
  right; left; exists K;
  split; [reflexivity|];
  split; [assumption|];
  split;
  [ let k' := fresh "k" in
    let Hlt := fresh "Hlt" in
    intros k' Hlt; destruct k'; simpl in Hlt; try lia; assumption
  | rewrite executed_query_failed; unfold up_to; simpl firstn; gather ].

Ltac handler_raised K :=
  match goal with
  | Erun : (Raised _, _) = _ |- _ => inversion Erun; subst; clear Erun
  end;
  right; right; exists K;
  split; [reflexivity|];
  split; [assumption|];
  split;
  [ let k' := fresh "k" in
    let Hle := fresh "Hle" in
    intros k' Hle; destruct k'; simpl in Hle; try lia; assumption
  | unfold up_to; simpl firstn; gather ].

(** The [try] block ends in one of three ways: it returns the report when
    every query comes back and no rollback fails on the way; it raises the
    error of the first query that fails; or it raises the error of a
    rollback that failed in the audit handler of some check.  In each case
    the checks ran in the order of the dict literal up to the one at which
    it ended. *)
Lemma all_checks_cases (s : checker) :
  connection s = Open ->
  exists s',
    (all_checks env db s = (Returned (expected_report env db), s')
     /\ (forall k, query_fails env k = false)
     /\ executed (trace s') = (executed (trace s) ++ registered)%list
     /\ attempted (trace s') = (attempted (trace s) ++ all_findings db)%list)
    \/ (exists k,
          all_checks env db s = (Raised (DataAccessError k), s')
          /\ query_fails env k = true
          /\ (forall k', rank k' < rank k -> query_fails env k' = false)
          /\ executed (trace s') = (executed (trace s) ++ up_to k)%list)
    \/ (exists j,
          all_checks env db s = (Raised InterfaceError, s')
          /\ handler_failed env
          /\ (forall k', rank k' <= rank j -> query_fails env k' = false)
          /\ executed (trace s') = (executed (trace s) ++ up_to j)%list).
Proof.
  intros Hopen.
  destruct (all_checks env db s) as [o s'] eqn:Erun. exists s'.
  unfold all_checks in Erun. cbv zeta in Erun.
  step patient_completeness check_patient_completeness;
    [query_raised patient_completeness | | handler_raised patient_completeness].
  step claims_discrepancies check_claims_discrepancies;
    [query_raised claims_discrepancies | | handler_raised claims_discrepancies].
  step temporal_anomalies check_temporal_anomalies;
    [query_raised temporal_anomalies | | handler_raised temporal_anomalies].
  step duplicate_records check_duplicate_records;
    [query_raised duplicate_records | | handler_raised duplicate_records].
  step provider_credentials check_provider_credentials;
    [query_raised provider_credentials | | handler_raised provider_credentials].
  unfold ret in Erun. inversion Erun; subst; clear Erun.
  left. split; [reflexivity|].
  split; [intros k; destruct k; assumption|].
  unfold all_findings. simpl List.concat. rewrite app_nil_r.
  split; gather.
Qed.

(** When no query fails and no rollback fails, the five checks run in order
    and the report holds the result of each under its key. *)
Lemma all_checks_returns (s : checker) :
  rollback_safe env ->
  connection s = Open ->
  (forall k, query_fails env k = false) ->
  exists s',
    all_checks env db s = (Returned (expected_report env db), s')
    /\ executed (trace s') = (executed (trace s) ++ registered)%list
    /\ attempted (trace s') = (attempted (trace s) ++ all_findings db)%list.
Proof.
  intros Hsafe Hopen Hq.
  destruct (all_checks_cases s Hopen)
    as (s' & [(E & _ & X & At)|[(k & _ & Hk & _)|(j & _ & Hf & _)]]).
  - exists s'. auto.
  - rewrite Hq in Hk. discriminate.
  - exfalso. exact (rollback_safe_handler env Hsafe Hf).
Qed.

End Run.

(** A run in which the connection is acquired, no query fails and no
    rollback fails returns a report with the five results, and leaves the
    connection closed. *)
Lemma run_completes (env : environment) (db : database) (s : checker) :
  rollback_safe env ->
  connect_fails env = false ->
  (forall k, query_fails env k = false) ->
  exists rep s',
    run_all_checks env db s = (Returned rep, s')
    /\ checks rep = map (fun k => (k, rule_result k db)) registered
    /\ executed (trace s') = (executed (trace s) ++ registered)%list.
Proof.
  intros Hsafe Hc Hq. rewrite (run_with_connection env db s Hc).
  destruct (all_checks_returns env db (connected s) Hsafe eq_refl Hq)
    as (s1 & E & X & _).
  rewrite E. exists (expected_report env db), (closed s1).
  split; [reflexivity|]. split; [reflexivity|].
  destruct (closed_readings s1) as (_ & Xc & _).
  destruct (connected_readings s) as (_ & Xo & _).
  now rewrite Xc, X, Xo.
Qed.

(** C1, as the code has it: when the query of a check fails, the error is
    re-raised by [execute_query] and nothing catches it: [run_all_checks]
    raises it to its caller and returns no report.  The checks before the
    failing one have run, the checks after it have not, and the connection
    is closed.  The one thing that keeps the failing query from being
    reached is a rollback failing in the audit handler of an earlier check:
    the run then ends there, [j] being that check, with no report either. *)
Theorem query_failure_aborts_run
        (env : environment) (db : database) (s : checker) (k : check_key) :
  connect_fails env = false ->
  query_fails env k = true ->
  (forall k', rank k' < rank k -> query_fails env k' = false) ->
  exists e s' j,
    run_all_checks env db s = (Raised e, s')
    /\ connection s' = Closed
    /\ rank j <= rank k
    /\ executed (trace s') = (executed (trace s) ++ up_to j)%list
    /\ (j = k -> e = DataAccessError k)
    /\ (rollback_safe env -> j = k).
Proof.
  intros Hc Hq Hprev. rewrite (run_with_connection env db s Hc).
  destruct (connected_readings s) as (Ho & Xo & _).
  destruct (all_checks_cases env db (connected s) Ho)
    as (s1 & [(_ & Hall & _)|[(k0 & E & Hk0 & Hprev0 & X)|(j & E & Hf & Hj & X)]]).
  - rewrite Hall in Hq. discriminate.
  - assert (k0 = k) as ->.
    { apply rank_inj.
      destruct (Nat.lt_trichotomy (rank k0) (rank k)) as [H|[H|H]].
      - rewrite (Hprev k0 H) in Hk0. discriminate.
      - exact H.
      - rewrite (Hprev0 k H) in Hq. discriminate. }
    rewrite E. exists (DataAccessError k), (closed s1), k.
    destruct (closed_readings s1) as (Cc & Xc & _).
    rewrite Xc, X, Xo. repeat split; auto.
  - assert (Hlt : rank j < rank k).
    { destruct (Nat.lt_ge_cases (rank j) (rank k)) as [H|H]; [exact H|].
      rewrite (Hj k H) in Hq. discriminate. }
    rewrite E. exists InterfaceError, (closed s1), j.
    destruct (closed_readings s1) as (Cc & Xc & _).
    rewrite Xc, X, Xo. repeat split; auto; try lia.
    + intros ->. lia.
    + intros Hsafe. exfalso. exact (rollback_safe_handler env Hsafe Hf).
Qed.

Lemma query_failure_aborts_run_witness :
  exists s',
    run_all_checks Sample.one_query_down Sample.db new_checker
    = (Raised (DataAccessError claims_discrepancies), s')
    /\ connection s' = Closed
    /\ executed (trace s') = [patient_completeness; claims_discrepancies].
Proof.
  destruct (query_failure_aborts_run Sample.one_query_down Sample.db
              new_checker claims_discrepancies)
    as (e & s' & j & E & C & _ & X & He & Hj).
  - reflexivity.
  - reflexivity.
  - intros k' Hlt. destruct k'; simpl in Hlt; try lia. reflexivity.
  - assert (Hsafe : rollback_safe Sample.one_query_down)
      by (intros n _; reflexivity).
    rewrite (Hj Hsafe) in *. rewrite (He eq_refl) in E.
    exists s'. auto.
Defined.

(** C1, as stated, fails: with the query of the second check alone failing,
    the run returns no report and the three checks after it never run. *)
Lemma one_failing_query_stops_the_run :
  (forall k,
     query_fails Sample.one_query_down k = true <-> k = claims_discrepancies)
  /\ fst (run_all_checks Sample.one_query_down Sample.db new_checker)
     = Raised (DataAccessError claims_discrepancies)
  /\ executed
       (trace (snd (run_all_checks Sample.one_query_down Sample.db
                      new_checker)))
     = [patient_completeness; claims_discrepancies]
  /\ ~ (forall env db s k,
          connect_fails env = false ->
          (forall k', query_fails env k' = true <-> k' = k) ->
          exists rep s',
            run_all_checks env db s = (Returned rep, s')
            /\ forall k',
                 k' <> k ->
                 In k' (map fst (checks rep))
                 /\ In k' (executed (trace s'))).
Proof.
  assert (Hone : forall k,
             query_fails Sample.one_query_down k = true
             <-> k = claims_discrepancies)
    by (intros k; destruct k; simpl; split; congruence).
  split; [exact Hone|]. split; [vm_compute; reflexivity|].
  split; [vm_compute; reflexivity|].
  intros H.
  destruct (H Sample.one_query_down Sample.db new_checker
              claims_discrepancies eq_refl Hone) as (rep & s' & E & _).
  vm_compute in E. discriminate E.
Qed.

(** * Audit writes that fail *)

(** C3, where the code departs from it: the handler of [log_quality_issue]
    swallows the error of a failed insert, but its rollback stands outside
    any [try].  On a connection that is lost while the first check logs its
    findings, the insert fails, the rollback fails too, and its error leaves
    the check after the first of its three findings: the check returns no
    result, although it would have returned one had the insert gone
    through, and the run ends without a report. *)
Theorem failed_rollback_aborts_check :
  let s := snd (connect Sample.lost new_checker) in
  let run := check_method patient_completeness Sample.lost Sample.db s in
  fst run = Raised InterfaceError
  /\ List.length (attempted (trace (snd run))) = 1
  /\ List.length (rule_findings patient_completeness Sample.db) = 3
  /\ fst (check_method patient_completeness (writes_succeed Sample.lost)
            Sample.db s)
     = Returned (rule_result patient_completeness Sample.db)
  /\ fst (run_all_checks Sample.lost Sample.db new_checker)
     = Raised InterfaceError.
Proof.
  repeat split; vm_compute; reflexivity.
Qed.

(** * Further properties of the engine *)

Lemma logged_app (t1 t2 : list event) :
  logged (t1 ++ t2) = (logged t1 ++ logged t2)%list.
Proof.
  induction t1 as [|e t1 IH]; simpl; [reflexivity|].
  destruct e; simpl; rewrite ?IH; reflexivity.
Qed.

Lemma journals_ret {A} (a : A) : journals (ret a).
Proof.
  intros s. exists []. simpl. now rewrite !app_nil_r.
Qed.

Lemma journals_raise {A} (e : exn) : journals (@raise A e).
Proof.
  intros s. exists []. simpl. now rewrite !app_nil_r.
Qed.

Lemma journals_bind {A B} (m : M A) (k : A -> M B) :
  journals m -> (forall a, journals (k a)) -> journals (bind m k).
Proof.
  intros Hm Hk s. unfold bind.
  destruct (Hm s) as (e1 & T1 & R1 & L1).
  destruct (m s) as [[a|e] s1]; simpl in *.
  - destruct (Hk a s1) as (e2 & T2 & R2 & L2).
    exists (e1 ++ e2)%list.
    rewrite T2, L2, T1, L1, logged_app, forallb_app, R1, R2, <- !app_assoc.
    auto.
  - exists e1. auto.
Qed.

Lemma journals_for_each {A} (rows : list A) (body : A -> M unit) :
  (forall r, journals (body r)) -> journals (for_each rows body).
Proof.
  intros Hb. induction rows as [|r rows IH]; simpl.
  - apply journals_ret.
  - apply journals_bind; [apply Hb | intros _; exact IH].
Qed.

Lemma journals_execute_query {A} env db k (q : database -> list A) :
  journals (execute_query env db k q).
Proof.
  intros s. unfold execute_query.
  destruct (connection s); [| destruct (query_fails env k) |];
    eexists; (split; [simpl; reflexivity|]); simpl; rewrite app_nil_r; auto.
Qed.

Lemma journals_log_quality_issue env (f : Finding) :
  journals (log_quality_issue env f).
Proof.
  intros s. unfold log_quality_issue.
  destruct (connection s);
    [| destruct (write_fails env (List.length (trace s)));
       [destruct (rollback_fails env (List.length (trace s)))|] |];
    eexists; (split; [simpl; reflexivity|]); simpl; rewrite ?app_nil_r; auto.
Qed.

Create HintDb journal.

#[local] Hint Resolve journals_ret journals_raise journals_execute_query
  journals_log_quality_issue : journal.

Lemma check_journals env db (k : check_key) :
  journals (check_method k env db).
Proof.
  destruct k; simpl;
    (apply journals_bind; [auto with journal|]; intros rows;
     apply journals_bind; [|intros; auto with journal];
     apply journals_for_each; intros r; auto with journal).
  destruct (Duplicates.finding r); auto with journal.
Qed.

Lemma all_checks_journals env db : journals (all_checks env db).
Proof.
  unfold all_checks.
  apply journals_bind;
    [apply (check_journals env db patient_completeness)|]; intros r1.
  apply journals_bind;
    [apply (check_journals env db claims_discrepancies)|]; intros r2.
  apply journals_bind;
    [apply (check_journals env db temporal_anomalies)|]; intros r3.
  apply journals_bind;
    [apply (check_journals env db duplicate_records)|]; intros r4.
  apply journals_bind;
    [apply (check_journals env db provider_credentials)|]; intros r5.
  apply journals_ret.
Qed.

Section AuditTable.

Variable env : environment.
Variable db : database.
Hypothesis writes_ok : forall n, write_fails env n = false.

Lemma for_each_audit {A} (g : A -> option Finding) (rows : list A) :
  Forall (fun r => g r <> None) rows ->
  forall s,
    connection s = Open ->
    quality_audit_log (snd (for_each rows (log_row env g) s))
    = (quality_audit_log s ++ Sql.array_remove_null (map g rows))%list.
Proof.
  induction 1 as [|r rows Hr Hrows IH]; intros s Hopen; simpl.
  - now rewrite app_nil_r.
  - unfold bind, log_row at 1.
    destruct (g r) as [f|] eqn:Eg; [|congruence].
    unfold log_quality_issue. rewrite Hopen, writes_ok.
    rewrite IH by reflexivity. simpl. now rewrite <- app_assoc.
Qed.

Lemma for_each_audit_total {A} (f : A -> Finding) (rows : list A) (s : checker) :
  connection s = Open ->
  quality_audit_log
    (snd (for_each rows (fun r => log_quality_issue env (f r)) s))
  = (quality_audit_log s ++ map f rows)%list.
Proof.
  intros Hopen. rewrite <- remove_null_map_Some.
  apply (for_each_audit (fun r => Some (f r))); [|exact Hopen].
  apply Forall_forall. intros; discriminate.
Qed.

(** When no insert fails, a check adds its findings to the audit table, in
    the order of its rows. *)
Lemma check_audit_log (k : check_key) (s : checker) :
  connection s = Open ->
  query_fails env k = false ->
  quality_audit_log (snd (check_method k env db s))
  = (quality_audit_log s ++ rule_findings k db)%list.
Proof.
  intros Hopen Hq.
  assert (Ho : connection (emit (Queried k) s) = Open) by exact Hopen.
  destruct k; simpl;
    [ unfold check_patient_completeness
    | unfold check_claims_discrepancies
    | unfold check_temporal_anomalies
    | unfold check_duplicate_records
    | unfold check_provider_credentials ];
    unfold bind at 1; rewrite (execute_query_ok env db _ _ s Hopen Hq);
    unfold bind, ret.
  - pose proof (for_each_audit_total Completeness.finding
                  (Completeness.query db) _ Ho) as L.
    destruct (for_each _ _ _) as [[u|e] s']; exact L.
  - pose proof (for_each_audit_total (Discrepancies.finding db)
                  (Discrepancies.query db) _ Ho) as L.
    destruct (for_each _ _ _) as [[u|e] s']; exact L.
  - pose proof (for_each_audit_total Temporal.finding
                  (Temporal.query db) _ Ho) as L.
    destruct (for_each _ _ _) as [[u|e] s']; exact L.
  - pose proof (for_each_audit Duplicates.finding (Duplicates.query db)
                  (duplicates_finding_defined db) _ Ho) as L.
    unfold log_row in L.
    destruct (for_each _ _ _) as [[u|e] s']; exact L.
  - pose proof (for_each_audit_total Credentials.finding
                  (Credentials.query db) _ Ho) as L.
    destruct (for_each _ _ _) as [[u|e] s']; exact L.
Qed.

End AuditTable.

Lemma rule_findings_length (db : database) (k : check_key) :
  List.length (rule_findings k db) = issues_found (rule_result k db).
Proof.
  destruct k; simpl; rewrite ?length_map; try reflexivity.
  apply remove_null_length_defined, duplicates_finding_defined.
Qed.

Lemma all_findings_length (env : environment) (db : database) :
  List.length (all_findings db)
  = total_issues_found (summary (expected_report env db)).
Proof.
  unfold all_findings, expected_report. cbn [summary total_issues_found].
  rewrite sum_issues_list_sum, length_concat, !map_map.
  f_equal. apply map_ext. intros k. apply rule_findings_length.
Qed.

Lemma logged_incl_attempted (evs : list event) :
  incl (logged evs) (attempted evs)
  /\ List.length (logged evs) <= List.length (attempted evs).
Proof.
  induction evs as [|e evs [IHi IHl]]; simpl.
  - split; [apply incl_nil_l | lia].
  - destruct e; simpl; try (split; [exact IHi | exact IHl]).
    + split; [|lia]. intros x [->|Hx]; [now left | right; now apply IHi].
    + split; [|lia]. intros x Hx. right. now apply IHi.
Qed.

Lemma no_write_failure_safe (env : environment) :
  (forall n, write_fails env n = false) -> rollback_safe env.
Proof. intros H n Hn. rewrite H in Hn. discriminate. Qed.

Lemma writes_succeed_safe (env : environment) :
  rollback_safe (writes_succeed env).
Proof. intros n Hn. discriminate Hn. Qed.

Section Complete.

Variable env : environment.
Variable db : database.
Hypothesis writes_ok : forall n, write_fails env n = false.

Ltac run_check K method Hq :=
  unfold bind at 1;
  match goal with
  | Ho : connection ?st = Open |- context [method env db ?st] =>
      let st' := fresh "st" in
      let E := fresh "E" in
      let O := fresh "O" in
      let At := fresh "At" in
      let X := fresh "X" in
      let L := fresh "L" in
      destruct (check_returns env db K st
                  (no_write_failure_safe env writes_ok) Ho Hq)
        as (st' & E & O & At & X);
      pose proof (check_audit_log env db writes_ok K st Ho Hq) as L;
      change (check_method K env db st) with (method env db st) in E, L;
      rewrite E in L; simpl in L; rewrite E; clear E
  end.

(** When no query and no insert fails, the [try] block returns the report
    after adding every finding of the five checks to the audit table, in
    order. *)
Lemma all_checks_complete (s : checker) :
  connection s = Open ->
  (forall k, query_fails env k = false) ->
  exists s',
    all_checks env db s = (Returned (expected_report env db), s')
    /\ quality_audit_log s' = (quality_audit_log s ++ all_findings db)%list.
Proof.
  intros Hopen Hq. unfold all_checks. cbv zeta.
  run_check patient_completeness check_patient_completeness
    (Hq patient_completeness).
  run_check claims_discrepancies check_claims_discrepancies
    (Hq claims_discrepancies).
  run_check temporal_anomalies check_temporal_anomalies
    (Hq temporal_anomalies).
  run_check duplicate_records check_duplicate_records (Hq duplicate_records).
  run_check provider_credentials check_provider_credentials
    (Hq provider_credentials).
  eexists. split; [reflexivity|]. unfold all_findings. simpl List.concat.
  rewrite app_nil_r, L3, L2, L1, L0, L, <- !app_assoc. reflexivity.
Qed.

Lemma run_complete (s : checker) :
  connect_fails env = false ->
  (forall k, query_fails env k = false) ->
  exists s1,
    run_all_checks env db s = (Returned (expected_report env db), closed s1)
    /\ quality_audit_log s1 = (quality_audit_log s ++ all_findings db)%list.
Proof.
  intros Hc Hq. rewrite (run_with_connection env db s Hc).
  destruct (all_checks_complete (connected s) eq_refl Hq) as (s1 & E & L).
  rewrite E. exists s1. split; [reflexivity | exact L].
Qed.

End Complete.

(** A run that returns a report had its connection and all its queries, and
    logged the findings of the five checks in order. *)
Lemma run_returned env db (s s' : checker) (rep : Report) :
  run_all_checks env db s = (Returned rep, s') ->
  connect_fails env = false
  /\ (forall k, query_fails env k = false)
  /\ rep = expected_report env db
  /\ executed (trace s') = (executed (trace s) ++ registered)%list
  /\ attempted (trace s') = (attempted (trace s) ++ all_findings db)%list.
Proof.
  intros Hrun.
  destruct (connect_fails env) eqn:Hc.
  - rewrite (run_without_connection env db s Hc) in Hrun. discriminate.
  - rewrite (run_with_connection env db s Hc) in Hrun.
    destruct (connected_readings s) as (Ho & Xo & Ao & _).
    destruct (all_checks_cases env db (connected s) Ho)
      as (s1 & [(E & Hq & X & At)|[(k & E & _)|(j & E & _)]]);
      rewrite E in Hrun; inversion Hrun; subst.
    destruct (closed_readings s1) as (_ & Xc & Ac & _).
    rewrite Xc, Ac, X, At, Xo, Ao. auto.
Qed.

(** X1: a run ends in one of four ways.  It raises ConnectionError, leaving
    the checker untouched, exactly when the connection cannot be acquired;
    it raises the DataAccessError of the first check whose query fails; it
    raises the error of a rollback that failed in the audit handler; or it
    returns a report, which it does whenever the connection is acquired, no
    query fails and no rollback fails.  It raises nothing else. *)
Theorem run_outcome (env : environment) (db : database) (s : checker) :
  match fst (run_all_checks env db s) with
  | Returned rep =>
      connect_fails env = false /\ forall k, query_fails env k = false
  | Raised ConnectionError =>
      connect_fails env = true /\ snd (run_all_checks env db s) = s
  | Raised (DataAccessError k) =>
      connect_fails env = false
      /\ query_fails env k = true
      /\ forall k', rank k' < rank k -> query_fails env k' = false
  | Raised InterfaceError =>
      connect_fails env = false /\ handler_failed env
  | Raised AttributeError | Raised IndexError => False
  end
  /\ (connect_fails env = false ->
      (forall k, query_fails env k = false) ->
      rollback_safe env ->
      exists rep, fst (run_all_checks env db s) = Returned rep).
Proof.
  destruct (connect_fails env) eqn:Hc.
  - rewrite (run_without_connection env db s Hc). simpl.
    split; [auto | discriminate].
  - rewrite (run_with_connection env db s Hc). simpl.
    destruct (connected_readings s) as (Ho & _).
    destruct (all_checks_cases env db (connected s) Ho)
      as (s1 & [(E & Hq & _)|[(k & E & Hk & Hprev & _)|(j & E & Hf & _)]]);
      rewrite E; simpl.
    + split; [auto|]. intros _ _ _. eauto.
    + split; [auto|]. intros _ Hq _. rewrite Hq in Hk. discriminate.
    + split; [auto|]. intros _ _ Hsafe.
      exfalso. exact (rollback_safe_handler env Hsafe Hf).
Qed.

Lemma first_failing_unique (env : environment) (k k0 : check_key) :
  query_fails env k = true ->
  (forall k', rank k' < rank k -> query_fails env k' = false) ->
  query_fails env k0 = true ->
  (forall k', rank k' < rank k0 -> query_fails env k' = false) ->
  k0 = k.
Proof.
  intros Hk Hprev Hk0 Hprev0. apply rank_inj.
  destruct (Nat.lt_trichotomy (rank k0) (rank k)) as [H|[H|H]].
  - rewrite (Hprev k0 H) in Hk0. discriminate.
  - exact H.
  - rewrite (Hprev0 k H) in Hk. discriminate.
Qed.

(** X2: when the rollback of the handler returns, an audit insert that
    fails is contained.  The check in which it occurs ends as it would had
    every insert gone through, with the same result dict, and hands the
    same findings to [log_quality_issue]; with a live connection and a query
    that comes back it returns its result after processing every finding;
    and the run as a whole ends the same way, with the same report. *)
Theorem audit_failure_contained_when_rolled_back
        (env : environment) (db : database) (k : check_key) (s : checker) :
  rollback_safe env ->
  fst (check_method k env db s)
  = fst (check_method k (writes_succeed env) db s)
  /\ attempted (trace (snd (check_method k env db s)))
     = attempted (trace (snd (check_method k (writes_succeed env) db s)))
  /\ (connection s = Open ->
      query_fails env k = false ->
      fst (check_method k env db s) = Returned (rule_result k db)
      /\ attempted (trace (snd (check_method k env db s)))
         = (attempted (trace s) ++ rule_findings k db)%list)
  /\ fst (run_all_checks env db s)
     = fst (run_all_checks (writes_succeed env) db s).
Proof.
  intros Hsafe.
  assert (Hcheck :
            fst (check_method k env db s)
            = fst (check_method k (writes_succeed env) db s)
            /\ attempted (trace (snd (check_method k env db s)))
               = attempted
                   (trace (snd (check_method k (writes_succeed env) db s)))
            /\ (connection s = Open ->
                query_fails env k = false ->
                fst (check_method k env db s) = Returned (rule_result k db)
                /\ attempted (trace (snd (check_method k env db s)))
                   = (attempted (trace s) ++ rule_findings k db)%list)).
  { destruct (connection s) eqn:Hconn;
      [ | destruct (query_fails env k) eqn:Hq | ].
    - rewrite !check_raises by (left; congruence).
      repeat split; try reflexivity; discriminate.
    - rewrite !check_raises by (right; exact Hq).
      repeat split; try reflexivity; discriminate.
    - destruct (check_returns env db k s Hsafe Hconn Hq)
        as (s1 & E1 & _ & A1 & _).
      destruct (check_returns (writes_succeed env) db k s
                  (writes_succeed_safe env) Hconn Hq)
        as (s2 & E2 & _ & A2 & _).
      rewrite E1, E2. simpl. rewrite A1, A2. auto.
    - rewrite !check_raises by (left; congruence).
      repeat split; try reflexivity; discriminate. }
  destruct Hcheck as (H1 & H2 & H3).
  split; [exact H1|]. split; [exact H2|]. split; [exact H3|].
  destruct (connect_fails env) eqn:Hc.
  - rewrite !run_without_connection by exact Hc. reflexivity.
  - rewrite !run_with_connection by exact Hc. simpl.
    destruct (connected_readings s) as (Ho & _).
    destruct (all_checks_cases env db (connected s) Ho)
      as (s1 & [(E & Hq & _)|[(k1 & E & Hk & Hprev & _)|(j & _ & Hf & _)]]);
      [ | | exfalso; exact (rollback_safe_handler env Hsafe Hf)];
      destruct (all_checks_cases (writes_succeed env) db (connected s) Ho)
        as (s2 & [(E' & Hq' & _)
                 |[(k2 & E' & Hk' & Hprev' & _)|(j & _ & Hf & _)]]);
      try (exfalso;
           exact (rollback_safe_handler _ (writes_succeed_safe env) Hf));
      rewrite E, E'; simpl.
    + reflexivity.
    + simpl in Hk'. rewrite Hq in Hk'. discriminate.
    + simpl in Hq'. rewrite Hq' in Hk. discriminate.
    + now rewrite (first_failing_unique env k1 k2 Hk Hprev Hk' Hprev').
Qed.

Lemma audit_failure_contained_when_rolled_back_witness :
  let s := snd (connect Sample.lossy new_checker) in
  let run := check_method patient_completeness Sample.lossy Sample.db s in
  fst run = Returned (rule_result patient_completeness Sample.db)
  /\ attempted (trace (snd run))
     = rule_findings patient_completeness Sample.db
  /\ List.length (quality_audit_log (snd run)) = 1
  /\ List.length (rule_findings patient_completeness Sample.db) = 3.
Proof.
  intros s run.
  assert (Hsafe : rollback_safe Sample.lossy) by (intros n _; reflexivity).
  destruct (proj1 (proj2 (proj2
    (audit_failure_contained_when_rolled_back Sample.lossy Sample.db
       patient_completeness s Hsafe)))
    eq_refl eq_refl) as [Hres Hatt].
  split; [exact Hres|]. split; [exact Hatt|].
  split; vm_compute; reflexivity.
Defined.

(** X3: in a run that returns a report, every issue counted is logged once:
    the findings handed to [log_quality_issue] during the run are those of
    the five checks in order, and their number is total_issues_found. *)
Theorem issues_are_findings
        (env : environment) (db : database) (s s' : checker) (rep : Report) :
  run_all_checks env db s = (Returned rep, s') ->
  attempted (trace s') = (attempted (trace s) ++ all_findings db)%list
  /\ List.length (all_findings db) = total_issues_found (summary rep)
  /\ forall k r,
       In (k, r) (checks rep) ->
       issues_found r = List.length (rule_findings k db).
Proof.
  intros Hrun.
  destruct (run_returned env db s s' rep Hrun) as (_ & _ & -> & _ & At).
  split; [exact At|]. split; [apply (all_findings_length env db)|].
  intros k r Hin. simpl in Hin.
  repeat (destruct Hin as [Hin|Hin];
          [inversion Hin; subst; symmetry; apply rule_findings_length|]).
  contradiction.
Qed.

Lemma issues_are_findings_witness :
  exists rep s',
    run_all_checks Sample.lossy Sample.db new_checker = (Returned rep, s')
    /\ attempted (trace s') = all_findings Sample.db
    /\ List.length (all_findings Sample.db)
       = total_issues_found (summary rep).
Proof.
  destruct (run_all_checks Sample.lossy Sample.db new_checker)
    as [[rep|e] s'] eqn:E; [|vm_compute in E; discriminate E].
  exists rep, s'. split; [reflexivity|].
  destruct (issues_are_findings _ _ _ _ _ E) as (Hatt & Hlen & _).
  split; [exact Hatt | exact Hlen].
Defined.

(** X4: the audit table is append-only.  Whatever way a run ends, the rows
    the table held are kept in place, and the rows added are the inserts
    that went through, in order, each of them a finding handed to
    [log_quality_issue] during this run. *)
Theorem audit_log_append_only
        (env : environment) (db : database) (s : checker) :
  exists evs,
    trace (snd (run_all_checks env db s)) = (trace s ++ evs)%list
    /\ quality_audit_log (snd (run_all_checks env db s))
       = (quality_audit_log s ++ logged evs)%list
    /\ incl (logged evs) (attempted evs)
    /\ List.length (logged evs) <= List.length (attempted evs).
Proof.
  destruct (connect_fails env) eqn:Hc.
  - rewrite (run_without_connection env db s Hc). exists []. simpl.
    rewrite !app_nil_r. repeat split; [apply incl_nil_l | lia].
  - rewrite (run_with_connection env db s Hc). simpl.
    destruct (all_checks_journals env db (connected s)) as (mid & T & _ & L).
    exists (Connected :: mid ++ [Disconnected])%list.
    rewrite T, L. simpl. rewrite logged_app. simpl.
    rewrite <- !app_assoc, app_nil_r. simpl.
    split; [reflexivity|]. split; [reflexivity|].
    pose proof (logged_incl_attempted (mid ++ [Disconnected])) as H.
    rewrite logged_app in H. simpl in H. rewrite app_nil_r in H. exact H.
Qed.

(** X5: when the connection is acquired, the run connects once, disconnects
    once, and sends every query and every audit insert in between. *)
Theorem run_brackets_connection
        (env : environment) (db : database) (s : checker) :
  connect_fails env = false ->
  exists mid,
    trace (snd (run_all_checks env db s))
    = (trace s ++ Connected :: mid ++ [Disconnected])%list
    /\ forallb rule_event mid = true.
Proof.
  intros Hc. rewrite (run_with_connection env db s Hc). simpl.
  destruct (all_checks_journals env db (connected s)) as (mid & T & R & _).
  exists mid. rewrite T. simpl. rewrite <- !app_assoc. simpl. auto.
Qed.

Lemma run_brackets_connection_witness :
  exists mid,
    trace (snd (run_all_checks Sample.one_query_down Sample.db new_checker))
    = (Connected :: mid ++ [Disconnected])%list
    /\ forallb rule_event mid = true.
Proof.
  apply (run_brackets_connection Sample.one_query_down Sample.db new_checker).
  reflexivity.
Defined.

(** X6: when the connection is acquired and neither a query nor an audit
    insert fails, the run adds to the audit table exactly the findings of
    the five checks, in order, as many rows as total_issues_found. *)
Theorem audit_log_complete
        (env : environment) (db : database) (s : checker) :
  connect_fails env = false ->
  (forall k, query_fails env k = false) ->
  (forall n, write_fails env n = false) ->
  fst (run_all_checks env db s) = Returned (expected_report env db)
  /\ quality_audit_log (snd (run_all_checks env db s))
     = (quality_audit_log s ++ all_findings db)%list
  /\ List.length (all_findings db)
     = total_issues_found (summary (expected_report env db)).
Proof.
  intros Hc Hq Hw.
  destruct (run_complete env db Hw s Hc Hq) as (s1 & E & L).
  rewrite E. split; [reflexivity|].
  split; [simpl; exact L | apply (all_findings_length env db)].
Qed.

Lemma audit_log_complete_witness :
  quality_audit_log (snd (run_all_checks Sample.calm Sample.db new_checker))
  = all_findings Sample.db
  /\ List.length (all_findings Sample.db) = 11.
Proof.
  destruct (audit_log_complete Sample.calm Sample.db new_checker)
    as (_ & Hlog & _); try reflexivity.
  split; [exact Hlog | vm_compute; reflexivity].
Defined.

(** X7: a checker can be run again.  With nothing failing, a second run on
    the same object, with its own clock reading and its own view of the
    dataset, reconnects, returns its report and adds its findings to the
    audit table after those of the first run: nothing is deduplicated, and
    the connection is closed again. *)
Theorem rerun_appends_again
        (env1 env2 : environment) (db1 db2 : database) (s : checker) :
  connect_fails env1 = false ->
  (forall k, query_fails env1 k = false) ->
  (forall n, write_fails env1 n = false) ->
  connect_fails env2 = false ->
  (forall k, query_fails env2 k = false) ->
  (forall n, write_fails env2 n = false) ->
  let first := run_all_checks env1 db1 s in
  let second := run_all_checks env2 db2 (snd first) in
  fst first = Returned (expected_report env1 db1)
  /\ fst second = Returned (expected_report env2 db2)
  /\ quality_audit_log (snd second)
     = (quality_audit_log s ++ all_findings db1 ++ all_findings db2)%list
  /\ connection (snd second) = Closed.
Proof.
  intros Hc1 Hq1 Hw1 Hc2 Hq2 Hw2 first second. subst second first.
  destruct (run_complete env1 db1 Hw1 s Hc1 Hq1) as (s1 & E1 & L1).
  rewrite E1. simpl fst. simpl snd.
  destruct (run_complete env2 db2 Hw2 (closed s1) Hc2 Hq2) as (s2 & E2 & L2).
  rewrite E2. simpl. split; [reflexivity|]. split; [reflexivity|].
  split; [|reflexivity].
  rewrite L2. simpl. rewrite L1, <- app_assoc. reflexivity.
Qed.

Lemma rerun_appends_again_witness :
  let first := run_all_checks Sample.calm Sample.db new_checker in
  let second := run_all_checks Sample.later Sample.db (snd first) in
  timestamp (expected_report Sample.later Sample.db)
  <> timestamp (expected_report Sample.calm Sample.db)
  /\ fst second = Returned (expected_report Sample.later Sample.db)
  /\ List.length (quality_audit_log (snd second)) = 22.
Proof.
  intros first second.
  destruct (rerun_appends_again Sample.calm Sample.later
              Sample.db Sample.db new_checker)
    as (_ & Hsecond & Hlog & _); try reflexivity.
  split; [discriminate|]. split; [exact Hsecond|].
  subst second first. rewrite Hlog. vm_compute. reflexivity.
Defined.

(** X8: a check called without a live connection, before [connect] or after
    [disconnect], raises at its query: it inserts nothing in the audit
    table, hands no finding to [log_quality_issue] and leaves the
    connection as it was. *)
Theorem check_needs_connection
        (env : environment) (db : database) (k : check_key) (s : checker) :
  connection s <> Open ->
  fst (check_method k env db s) = Raised (DataAccessError k)
  /\ quality_audit_log (snd (check_method k env db s)) = quality_audit_log s
  /\ attempted (trace (snd (check_method k env db s))) = attempted (trace s)
  /\ connection (snd (check_method k env db s)) = connection s.
Proof.
  intros Hconn. rewrite (check_raises env db k s (or_introl Hconn)). simpl.
  rewrite attempted_app. simpl. rewrite app_nil_r. auto.
Qed.

Lemma check_needs_connection_witness :
  fst (check_method duplicate_records Sample.calm Sample.db new_checker)
  = Raised (DataAccessError duplicate_records)
  /\ quality_audit_log
       (snd (check_method duplicate_records Sample.calm Sample.db new_checker))
     = [].
Proof.
  destruct (check_needs_connection Sample.calm Sample.db duplicate_records
              new_checker) as (Hr & Hl & _).
  - discriminate.
  - split; [exact Hr | exact Hl].
Defined.

(** * Further properties of the rules *)

(** ** The order of the results *)

Section SortedRows.

Context {A : Type}.
Variable before : A -> A -> bool.
Variable P : A -> Prop.
Variable R : A -> A -> Prop.
Hypothesis R_before : forall x y, P x -> P y -> before y x = true -> R y x.
Hypothesis R_otherwise :
  forall x y, P x -> P y -> before y x = false -> R x y.
Hypothesis R_trans : forall x y z, R x y -> R y z -> R x z.

Lemma insert_row_sorted (x : A) (l : list A) :
  P x -> Forall P l -> StronglySorted R l ->
  StronglySorted R (insert_row before x l).
Proof.
  intros Px. induction l as [|y t IH]; intros Pl Hs; simpl.
  - constructor; constructor.
  - inversion Hs as [|? ? Hst Hy]; subst.
    inversion Pl as [|? ? Py Pt]; subst.
    destruct (before y x) eqn:E.
    + constructor; [now apply IH|].
      apply (Permutation_Forall
               (Permutation_sym (insert_row_Permutation before x t))).
      constructor; [now apply R_before | exact Hy].
    + constructor; [exact Hs|].
      assert (Rxy : R x y) by now apply R_otherwise.
      constructor; [exact Rxy|].
      apply (Forall_impl (R x)) with (2 := Hy).
      intros z Hz. now apply R_trans with y.
Qed.

Lemma sort_sorted (l : list A) :
  Forall P l -> StronglySorted R (fold_right (insert_row before) [] l).
Proof.
  induction l as [|x l IH]; intros Pl; simpl.
  - constructor.
  - inversion Pl as [|? ? Px Pt]; subst.
    apply insert_row_sorted; [exact Px | | now apply IH].
    apply (Permutation_Forall
             (Permutation_sym (sort_Permutation before l))).
    exact Pt.
Qed.

Lemma order_by_sorted (pick : nat -> nat) (l : list A) :
  Forall P l -> StronglySorted R (order_by pick before l).
Proof.
  intros Pl. unfold order_by. apply sort_sorted.
  apply (Permutation_Forall (Permutation_sym (arrange_Permutation pick l))).
  exact Pl.
Qed.

End SortedRows.

(** X9: the rows of the discrepancy check come largest discrepancy first:
    each row carries an amount that is at least the amount of every row
    after it. *)
Theorem discrepancies_sorted (db : database) :
  StronglySorted
    (fun x y =>
       exists a b,
         Discrepancies.discrepancy_amount x = Some a
         /\ Discrepancies.discrepancy_amount y = Some b
         /\ (b <= a)%Q)
    (Discrepancies.query db).
Proof.
  unfold Discrepancies.query.
  apply order_by_sorted
    with (P := fun r => exists a, Discrepancies.discrepancy_amount r = Some a).
  - intros x y (a & Ha) (b & Hb) H.
    unfold Discrepancies.sorts_before in H. rewrite Ha, Hb in H.
    apply Qlt_bool_iff in H. exists b, a. auto using Qlt_le_weak.
  - intros x y (a & Ha) (b & Hb) H.
    unfold Discrepancies.sorts_before in H. rewrite Ha, Hb in H.
    exists a, b. split; [exact Ha|]. split; [exact Hb|].
    apply Qnot_lt_le. intros Hlt. apply Qlt_bool_iff in Hlt. congruence.
  - intros x y z (a & b & Ha & Hb & Hab) (b' & c & Hb' & Hc & Hbc).
    rewrite Hb in Hb'. inversion Hb'; subst.
    exists a, c. split; [exact Ha|]. split; [exact Hc|].
    now apply Qle_trans with b'.
  - apply Forall_forall. intros r Hr. apply in_map_iff in Hr.
    destruct Hr as (t & <- & Ht). apply filter_In in Ht.
    destruct Ht as [_ Hw]. apply discrepancies_where in Hw.
    destruct Hw as (s & Hs & _). simpl.
    unfold Discrepancies.abs_difference. rewrite Hs. simpl. eauto.
Qed.

(** X10: the rows of the duplicate check come largest group first. *)
Theorem duplicates_sorted (db : database) :
  StronglySorted
    (fun x y => Duplicates.duplicate_count y <= Duplicates.duplicate_count x)
    (Duplicates.query db).
Proof.
  unfold Duplicates.query.
  apply order_by_sorted with (P := fun _ => True).
  - intros x y _ _ H. unfold Duplicates.sorts_before in H.
    apply Nat.ltb_lt in H. lia.
  - intros x y _ _ H. unfold Duplicates.sorts_before in H.
    apply Nat.ltb_ge in H. lia.
  - intros x y z Hxy Hyz. lia.
  - apply Forall_forall. auto.
Qed.

(** X11: the rows of the credential check come earliest expiry first, hence
    longest overdue first: each row's expiry date is at most, and its
    days_expired at least, that of every row after it. *)
Theorem credentials_sorted (db : database) :
  StronglySorted
    (fun x y =>
       exists a b,
         Credentials.license_expiry_date x = Some a
         /\ Credentials.license_expiry_date y = Some b
         /\ (a <= b)%Z
         /\ Credentials.days_expired x = Some (current_date db - a)%Z
         /\ Credentials.days_expired y = Some (current_date db - b)%Z
         /\ (current_date db - b <= current_date db - a)%Z)
    (Credentials.query db).
Proof.
  unfold Credentials.query.
  apply order_by_sorted
    with (P := fun r =>
                 exists a,
                   Credentials.license_expiry_date r = Some a
                   /\ Credentials.days_expired r
                      = Some (current_date db - a)%Z).
  - intros x y (a & Ha & Da) (b & Hb & Db) H.
    unfold Credentials.sorts_before in H. rewrite Ha, Hb in H.
    apply Z.ltb_lt in H. exists b, a. repeat split; auto; lia.
  - intros x y (a & Ha & Da) (b & Hb & Db) H.
    unfold Credentials.sorts_before in H. rewrite Ha, Hb in H.
    apply Z.ltb_ge in H. exists a, b. repeat split; auto; lia.
  - intros x y z (a & b & Ha & Hb & Hab & Da & Db & _)
                 (b' & c & Hb' & Hc & Hbc & _ & Dc & _).
    rewrite Hb in Hb'. inversion Hb'; subst.
    exists a, c. repeat split; auto; lia.
  - apply Forall_forall. intros r Hr. apply in_map_iff in Hr.
    destruct Hr as (p & <- & Hp). apply filter_In in Hp.
    destruct Hp as [_ Hw]. apply credentials_where in Hw.
    destruct Hw as [(e & He & _) _]. exists e. simpl. rewrite He. auto.
Qed.

(** ** Which records are flagged, and what a row holds *)

Lemma completeness_where_iff (p : PatientRecords.row) :
  Sql.holds (Completeness.where_clause p) = true <->
  PatientRecords.is_active p = Some true /\ missing_field_set p <> [].
Proof.
  unfold Completeness.where_clause, missing_field_set.
  destruct (PatientRecords.is_active p) as [[|]|],
    (PatientRecords.name p), (PatientRecords.date_of_birth p),
    (PatientRecords.insurance_id p), (PatientRecords.primary_provider p),
    (PatientRecords.contact_phone p), (PatientRecords.contact_email p);
    simpl; split;
    try (intros [? ?]; congruence); try discriminate;
    intros _; split; try reflexivity; discriminate.
Qed.

Lemma missing_field_set_bound (p : PatientRecords.row) :
  List.length (missing_field_set p) <= 5.
Proof.
  unfold missing_field_set.
  destruct (PatientRecords.name p), (PatientRecords.date_of_birth p),
    (PatientRecords.insurance_id p), (PatientRecords.primary_provider p),
    (PatientRecords.contact_phone p), (PatientRecords.contact_email p);
    simpl; lia.
Qed.

Lemma missing_fields_of_exact (p : PatientRecords.row) :
  let m := Completeness.missing_fields_of p in
  (In "name" m <-> PatientRecords.name p = None)
  /\ (In "date_of_birth" m <-> PatientRecords.date_of_birth p = None)
  /\ (In "insurance_id" m <-> PatientRecords.insurance_id p = None)
  /\ (In "primary_provider" m <-> PatientRecords.primary_provider p = None)
  /\ (In "contact_info" m
      <-> PatientRecords.contact_phone p = None
          /\ PatientRecords.contact_email p = None).
Proof.
  unfold Completeness.missing_fields_of.
  destruct (PatientRecords.name p), (PatientRecords.date_of_birth p),
    (PatientRecords.insurance_id p), (PatientRecords.primary_provider p),
    (PatientRecords.contact_phone p), (PatientRecords.contact_email p);
    simpl; repeat split; intros;
    repeat match goal with
           | H : _ \/ _ |- _ => destruct H
           | H : _ /\ _ |- _ => destruct H
           end;
    try discriminate; try contradiction; auto 6.
Qed.

(** X12: the completeness check flags every active record that misses at
    least one tracked field and hands its finding to the audit log; every
    row flagged lists between one and five missing fields; and the
    missing_fields column of a row names a required field exactly when that
    field is NULL on the row, and contact_info exactly when both contact
    fields are. *)
Theorem completeness_flagged (db : database) :
  (forall p,
     In p (patient_records db) ->
     PatientRecords.is_active p = Some true ->
     missing_field_set p <> [] ->
     In (Completeness.select p) (Completeness.query db)
     /\ In (Completeness.finding (Completeness.select p))
           (rule_findings patient_completeness db))
  /\ (forall r,
        In r (Completeness.query db) ->
        1 <= List.length (Completeness.missing_fields r) <= 5)
  /\ (forall r,
        In r (Completeness.query db) ->
        (In "name" (Completeness.missing_fields r)
         <-> Completeness.name r = None)
        /\ (In "date_of_birth" (Completeness.missing_fields r)
            <-> Completeness.date_of_birth r = None)
        /\ (In "insurance_id" (Completeness.missing_fields r)
            <-> Completeness.insurance_id r = None)
        /\ (In "primary_provider" (Completeness.missing_fields r)
            <-> Completeness.primary_provider r = None)
        /\ (In "contact_info" (Completeness.missing_fields r)
            <-> Completeness.contact_phone r = None
                /\ Completeness.contact_email r = None)).
Proof.
  split; [|split].
  - intros p Hin Hact Hmiss.
    assert (Hq : In (Completeness.select p) (Completeness.query db)).
    { apply completeness_query_In. exists p.
      split; [exact Hin|]. split; [|reflexivity].
      apply completeness_where_iff. auto. }
    split; [exact Hq|]. simpl. now apply in_map.
  - intros r Hr. apply completeness_query_In in Hr.
    destruct Hr as (p & _ & Hw & ->). simpl.
    rewrite missing_fields_of_spec.
    apply completeness_where_iff in Hw. destruct Hw as [_ Hne].
    pose proof (missing_field_set_bound p).
    destruct (missing_field_set p); [congruence | simpl in *; lia].
  - intros r Hr. apply completeness_query_In in Hr.
    destruct Hr as (p & _ & _ & ->). simpl.
    exact (missing_fields_of_exact p).
Qed.

Lemma completeness_flagged_witness :
  In (Completeness.select Sample.p3) (Completeness.query Sample.db)
  /\ In (Completeness.finding (Completeness.select Sample.p3))
        (rule_findings patient_completeness Sample.db).
Proof.
  apply (proj1 (completeness_flagged Sample.db) Sample.p3).
  - simpl. right. right. left. reflexivity.
  - reflexivity.
  - discriminate.
Defined.

Lemma temporal_query_In (db : database) (r : Temporal.row) :
  In r (Temporal.query db) <->
  exists c,
    In c (claims db)
    /\ Sql.holds (Temporal.where_clause c) = true
    /\ r = Temporal.select c.
Proof.
  unfold Temporal.query. rewrite in_map_iff. split.
  - intros (c & <- & Hc). apply filter_In in Hc. exists c. tauto.
  - intros (c & Hin & Hw & ->). exists c. split; [reflexivity|].
    apply filter_In. tauto.
Qed.

Lemma temporal_where_iff (c : Claims.row) :
  Sql.holds (Temporal.where_clause c) = true <->
  before_date (Claims.submission_date c) (Claims.service_date c)
  \/ before_date (Claims.processing_date c) (Claims.submission_date c).
Proof.
  unfold Temporal.where_clause, before_date.
  rewrite holds_or3, holds_and3, holds_is_not_null, !holds_lt.
  split; [tauto|]. intros [H|H]; [now left | right].
  split; [|exact H]. destruct H as (a & b & -> & _). discriminate.
Qed.

(** X13: every row of the temporal check carries exactly one of the two
    labels, never NULL: the first when the submission is before the service,
    the second when it is not and the processing is before the
    submission. *)
Theorem temporal_labels (db : database) (r : Temporal.row) :
  In r (Temporal.query db) ->
  (Temporal.anomaly_type r = Some "Submission before service"
   /\ before_date (Temporal.submission_date r) (Temporal.service_date r))
  \/ (Temporal.anomaly_type r = Some "Processing before submission"
      /\ before_date (Temporal.processing_date r) (Temporal.submission_date r)
      /\ ~ before_date (Temporal.submission_date r) (Temporal.service_date r)).
Proof.
  intros Hr. apply temporal_query_In in Hr.
  destruct Hr as (c & _ & Hw & ->). simpl.
  unfold Temporal.anomaly_type_of.
  apply temporal_where_iff in Hw.
  destruct (Sql.holds
              (Sql.cmp Z.ltb (Claims.submission_date c)
                 (Claims.service_date c))) eqn:E1.
  - left. split; [reflexivity | now apply holds_lt].
  - assert (Hno : ~ before_date (Claims.submission_date c)
                      (Claims.service_date c)).
    { intros H. apply holds_lt in H. congruence. }
    destruct Hw as [Hw|Hw]; [contradiction|].
    right. rewrite (proj2 (holds_lt _ _) Hw). auto.
Qed.

Lemma temporal_labels_witness :
  Temporal.anomaly_type (Temporal.select Sample.c2)
  = Some "Processing before submission".
Proof.
  destruct (temporal_labels Sample.db (Temporal.select Sample.c2))
    as [[H _]|[H _]].
  - simpl. right. left. reflexivity.
  - discriminate H.
  - exact H.
Defined.

(** X14: a claim is flagged by the temporal check exactly when its
    submission date is before its service date or its processing date is
    before its submission date; a comparison with a NULL date flags
    nothing, so a claim without submission date is never flagged. *)
Theorem temporal_flagged_iff (db : database) (c : Claims.row) :
  In c (claims db) ->
  (In (Temporal.select c) (Temporal.query db)
   <-> before_date (Claims.submission_date c) (Claims.service_date c)
       \/ before_date (Claims.processing_date c) (Claims.submission_date c))
  /\ (Claims.submission_date c = None ->
      ~ In (Temporal.select c) (Temporal.query db)).
Proof.
  intros Hin.
  assert (Hiff : In (Temporal.select c) (Temporal.query db)
                 <-> before_date (Claims.submission_date c)
                       (Claims.service_date c)
                     \/ before_date (Claims.processing_date c)
                          (Claims.submission_date c)).
  { rewrite temporal_query_In. split.
    - intros (c' & _ & Hw & E). apply temporal_where_iff in Hw.
      assert (E1 : Claims.service_date c = Claims.service_date c')
        by exact (f_equal Temporal.service_date E).
      assert (E2 : Claims.submission_date c = Claims.submission_date c')
        by exact (f_equal Temporal.submission_date E).
      assert (E3 : Claims.processing_date c = Claims.processing_date c')
        by exact (f_equal Temporal.processing_date E).
      now rewrite E1, E2, E3.
    - intros H. exists c. split; [exact Hin|]. split; [|reflexivity].
      now apply temporal_where_iff. }
  split; [exact Hiff|].
  intros Hnull Hq. apply Hiff in Hq. rewrite Hnull in Hq.
  destruct Hq as [(a & b & H & _)|(a & b & _ & H & _)]; discriminate.
Qed.

Lemma temporal_flagged_iff_witness :
  ~ In (Temporal.select Sample.c3) (Temporal.query Sample.db)
  /\ In (Temporal.select Sample.c1) (Temporal.query Sample.db).
Proof.
  split.
  - intros H.
    apply (proj1 (temporal_flagged_iff Sample.db Sample.c3
                    ltac:(simpl; auto))) in H.
    destruct H as [(a & b & _ & H & _)|(a & b & H & _)]; discriminate.
  - apply (proj1 (temporal_flagged_iff Sample.db Sample.c1
                    ltac:(simpl; auto))).
    left. exists 5%Z, 10%Z. repeat split; lia.
Defined.

(** X15: every row of the discrepancy check is about a claim of the table
    whose stated total is not NULL and differs from the row's calculated
    total by more than 0.01, the row's discrepancy amount being that
    difference: a claim without stated total, and line items that match no
    claim, are never reported. *)
Theorem discrepancies_rows_sound (db : database) (r : Discrepancies.row) :
  In r (Discrepancies.query db) ->
  exists c s,
    In c (claims db)
    /\ Discrepancies.claim_id r = Claims.claim_id c
    /\ Claims.claim_total_amount c = Some s
    /\ Discrepancies.claim_total_amount r = Some s
    /\ Discrepancies.discrepancy_amount r
       = Some (Qabs (s - Discrepancies.calculated_total r))
    /\ ((1 # 100) < Qabs (s - Discrepancies.calculated_total r))%Q.
Proof.
  intros Hr. apply discrepancies_query_In in Hr.
  destruct Hr as (t & Ht & Hw & ->).
  unfold Discrepancies.claim_line_totals, group_by in Ht.
  rewrite map_map in Ht. apply in_map_iff in Ht.
  destruct Ht as (rep & <- & Hrep).
  apply representatives_incl, left_join_fst in Hrep.
  apply discrepancies_where in Hw. destruct Hw as (s & Hs & Hlt).
  exists (fst rep), s. split; [exact Hrep|].
  split; [reflexivity|]. split; [exact Hs|]. split; [exact Hs|].
  split; [|exact Hlt].
  simpl. unfold Discrepancies.abs_difference. rewrite Hs. reflexivity.
Qed.

Lemma discrepancies_rows_sound_witness :
  match Discrepancies.query Sample.db with
  | r :: _ =>
      exists c, In c (claims Sample.db)
                /\ Discrepancies.claim_id r = Claims.claim_id c
  | [] => False
  end.
Proof.
  destruct (Discrepancies.query Sample.db) as [|r l] eqn:E;
    [vm_compute in E; discriminate E|].
  assert (Hr : In r (Discrepancies.query Sample.db))
    by (rewrite E; now left).
  destruct (discrepancies_rows_sound Sample.db r Hr) as (c & s & Hc & Hid & _).
  exists c. auto.
Defined.

Lemma join_rows_count (db : database) (c : Claims.row) :
  Sql.count
    (map Discrepancies.cli_id
       (Discrepancies.join_rows (claims_line_items db) c))
  = List.length (children db c).
Proof.
  unfold Discrepancies.join_rows.
  replace (filter _ (claims_line_items db)) with (children db c).
  2:{ unfold children. apply filter_ext. intros li.
      destruct (ClaimsLineItems.claim_id li) as [i|]; simpl; [|reflexivity].
      now destruct (String.eqb (Claims.claim_id c) i). }
  destruct (children db c) as [|m ms] eqn:E; [reflexivity|].
  rewrite map_map. unfold Sql.count.
  change (map (fun x => Discrepancies.cli_id (c, Some x)) (m :: ms))
    with (map (fun x => Some (ClaimsLineItems.line_item_id x)) (m :: ms)).
  now rewrite remove_null_map_Some, length_map.
Qed.

(** X16: with [claim_id] a key of [claims], the row reported for a claim
    carries the claim's stated total, the number of its line items, whether
    or not their amount is NULL, and the sum of their amounts. *)
Theorem discrepancy_row_of_claim
        (db : database) (c : Claims.row) (r : Discrepancies.row) :
  NoDup (map Claims.claim_id (claims db)) ->
  In c (claims db) ->
  In r (Discrepancies.query db) ->
  Discrepancies.claim_id r = Claims.claim_id c ->
  Discrepancies.claim_total_amount r = Claims.claim_total_amount c
  /\ Discrepancies.line_item_count r = List.length (children db c)
  /\ (Discrepancies.calculated_total r == sum_of_child_amounts db c)%Q.
Proof.
  intros Hnd Hin Hr Hid.
  destruct (totals_of_claim db c Hnd Hin) as [_ Huniq].
  apply discrepancies_query_In in Hr. destruct Hr as (t & Ht & _ & ->).
  simpl in Hid. rewrite (Huniq t Ht Hid). simpl.
  split; [reflexivity|]. split; [apply join_rows_count|].
  apply join_rows_total.
Qed.

Lemma discrepancy_row_of_claim_witness :
  match filter (fun r => String.eqb (Discrepancies.claim_id r) "C2")
          (Discrepancies.query Sample.db) with
  | r :: _ => Discrepancies.line_item_count r = 2
  | [] => False
  end.
Proof.
  destruct (filter _ (Discrepancies.query Sample.db)) as [|r l] eqn:E;
    [vm_compute in E; discriminate E|].
  assert (Hr : In r (filter
                       (fun r => String.eqb (Discrepancies.claim_id r) "C2")
                       (Discrepancies.query Sample.db)))
    by (rewrite E; now left).
  apply filter_In in Hr. destruct Hr as [Hr Hid].
  apply String.eqb_eq in Hid.
  destruct (discrepancy_row_of_claim Sample.db Sample.c2 r) as (_ & Hn & _).
  - repeat constructor; simpl; intuition discriminate.
  - simpl. right. left. reflexivity.
  - exact Hr.
  - exact Hid.
  - exact Hn.
Defined.

Lemma filter_representatives_in {A} (same : A -> A -> bool) (q : A -> bool)
      (rows : list A) :
  (forall x y,
     In x rows -> In y rows ->
     q x = true -> q y = true -> same x y = true) ->
  (forall x y, same x y = true -> q y = true -> q x = true) ->
  filter q (representatives same rows)
  = match find q rows with Some r => [r] | None => [] end.
Proof.
  intros Hin Hout. induction rows as [|r rs IH]; simpl; [reflexivity|].
  assert (IH' : filter q (representatives same rs)
                = match find q rs with Some r => [r] | None => [] end).
  { apply IH. intros x y Hx Hy. apply Hin; now right. }
  destruct (q r) eqn:Hq.
  - f_equal. apply filter_none. intros x Hx.
    apply filter_In in Hx. destruct Hx as [Hxin Hx].
    destruct (q x) eqn:Hqx; [|reflexivity].
    assert (S : same r x = true).
    { apply Hin; [now left | right | exact Hq | exact Hqx].
      now apply representatives_incl in Hxin. }
    rewrite S in Hx. discriminate.
  - rewrite <- IH', filter_filter_comm. apply filter_all.
    intros x Hx. apply filter_In in Hx. destruct Hx as [_ Hqx].
    destruct (same r x) eqn:E; [|reflexivity].
    rewrite (Hout r x E Hqx) in Hq. discriminate.
Qed.

(** X17: with [claim_id] a key of [claims], a claim is reported at most
    once: the discrepancy check hands at most one finding about it to the
    audit log. *)
Theorem discrepancy_at_most_once (db : database) (c : Claims.row) :
  NoDup (map Claims.claim_id (claims db)) ->
  In c (claims db) ->
  List.length
    (filter (fun f => String.eqb (record_id f) (Claims.claim_id c))
            (rule_findings claims_discrepancies db))
  <= 1.
Proof.
  intros Hnd Hin. unfold rule_findings, Discrepancies.query.
  rewrite filter_map_swap, length_map.
  rewrite (Permutation_length
             (filter_Permutation _ _ _ (order_by_Permutation _ _ _))).
  rewrite filter_map_swap, length_map, filter_filter_comm.
  assert (Hone : List.length
                   (filter
                      (fun t => String.eqb (Discrepancies.t_claim_id t)
                                  (Claims.claim_id c))
                      (Discrepancies.claim_line_totals db)) <= 1).
  { unfold Discrepancies.claim_line_totals, group_by.
    rewrite map_map, filter_map_swap, length_map.
    change (fun a : Discrepancies.joined =>
              String.eqb
                (Discrepancies.t_claim_id
                   (Discrepancies.aggregate
                      (a,
                       filter (Discrepancies.same_group a)
                         (Discrepancies.left_join (claims db)
                            (claims_line_items db)))))
                (Claims.claim_id c))
      with (fun a : Discrepancies.joined =>
              String.eqb (Claims.claim_id (fst a)) (Claims.claim_id c)).
    rewrite filter_representatives_in.
    - destruct (find _ _); simpl; lia.
    - intros x y Hx Hy Qx Qy. apply discrepancies_same_claim.
      apply String.eqb_eq in Qx, Qy. apply left_join_fst in Hx, Hy.
      apply (unique_key_eq Claims.claim_id (claims db)); auto. congruence.
    - intros x y Hs Qy. apply discrepancies_same_claim_id in Hs.
      now rewrite Hs. }
  etransitivity; [|exact Hone].
  clear. induction (filter _ (Discrepancies.claim_line_totals db))
    as [|t l IH]; simpl; [lia|].
  destruct (Sql.holds (Discrepancies.where_clause t)); simpl; lia.
Qed.

Lemma discrepancy_at_most_once_witness :
  List.length
    (filter (fun f => String.eqb (record_id f) "C1")
            (rule_findings claims_discrepancies Sample.db))
  <= 1.
Proof.
  apply (discrepancy_at_most_once Sample.db Sample.c1).
  - repeat constructor; simpl; intuition discriminate.
  - simpl. left. reflexivity.
Defined.

(** X18: every row of the duplicate check is a real group: it carries a
    name and a birth date, neither NULL, its identifiers are those of all
    the active records with that name and birth date, in table order, and
    its count is their number, at least two.  A single record is never
    reported. *)
Theorem duplicates_rows_sound (db : database) (r : Duplicates.row) :
  In r (Duplicates.query db) ->
  exists n d,
    Duplicates.name r = Some n
    /\ Duplicates.date_of_birth r = Some d
    /\ Duplicates.patient_ids r
       = map PatientRecords.patient_id (members db n d)
    /\ Duplicates.duplicate_count r = List.length (members db n d)
    /\ List.length (Duplicates.patient_ids r) = Duplicates.duplicate_count r
    /\ 2 <= Duplicates.duplicate_count r.
Proof.
  intros Hr. apply duplicates_query_In in Hr.
  destruct Hr as (g & Hg & Hh & ->).
  unfold Duplicates.groups, group_by in Hg. apply in_map_iff in Hg.
  destruct Hg as (r0 & <- & Hr0).
  apply representatives_incl, filter_In in Hr0. destruct Hr0 as [_ Hw].
  apply duplicates_where in Hw. destruct Hw as (Hn & Hd & _).
  destruct (PatientRecords.name r0) as [n|] eqn:En; [|congruence].
  destruct (PatientRecords.date_of_birth r0) as [d|] eqn:Ed; [|congruence].
  assert (Hk : has_key n d r0 = true) by (apply has_key_iff; auto).
  assert (Hgroup : filter (Duplicates.same_group r0)
                     (filter (fun p => Sql.holds (Duplicates.where_clause p))
                        (patient_records db))
                   = members db n d).
  { unfold members. rewrite filter_filter_andb.
    apply filter_ext_in. intros p _.
    now rewrite shares_key_split, (same_group_has_key n d r0 p Hk). }
  unfold Duplicates.having in Hh. simpl in Hh. rewrite Hgroup in Hh.
  apply Nat.ltb_lt in Hh.
  exists n, d. unfold Duplicates.aggregate. simpl.
  rewrite En, Ed, Hgroup, length_map. repeat split; auto.
Qed.

Lemma duplicates_rows_sound_witness :
  match Duplicates.query Sample.db with
  | r :: _ => 2 <= Duplicates.duplicate_count r
  | [] => False
  end.
Proof.
  destruct (Duplicates.query Sample.db) as [|r l] eqn:E;
    [vm_compute in E; discriminate E|].
  assert (Hr : In r (Duplicates.query Sample.db)) by (rewrite E; now left).
  destruct (duplicates_rows_sound Sample.db r Hr)
    as (n & d & _ & _ & _ & _ & _ & H).
  exact H.
Defined.

(** X19: every row of the credential check is an active provider of the
    table whose licence expired before the current date; its days_expired
    is the number of days since, at least one, and is what the description
    of its finding states. *)
Theorem credentials_rows_sound (db : database) (r : Credentials.row) :
  In r (Credentials.query db) ->
  exists p e,
    In p (providers db)
    /\ r = Credentials.select db p
    /\ Providers.is_active p = Some true
    /\ Providers.license_expiry_date p = Some e
    /\ (e < current_date db)%Z
    /\ Credentials.days_expired r = Some (current_date db - e)%Z
    /\ (1 <= current_date db - e)%Z
    /\ issue_description (Credentials.finding r)
       = Some ("License expired " ++ str_Z (current_date db - e)
               ++ " days ago").
Proof.
  intros Hr. apply credentials_query_In in Hr.
  destruct Hr as (p & Hin & Hw & ->).
  apply credentials_where in Hw. destruct Hw as [(e & He & Hlt) Hact].
  exists p, e. unfold Credentials.finding. simpl. rewrite He. simpl.
  repeat split; auto. lia.
Qed.

Lemma credentials_rows_sound_witness :
  match Credentials.query Sample.db with
  | r :: _ =>
      exists days,
        Credentials.days_expired r = Some days /\ (1 <= days)%Z
  | [] => False
  end.
Proof.
  destruct (Credentials.query Sample.db) as [|r l] eqn:E;
    [vm_compute in E; discriminate E|].
  assert (Hr : In r (Credentials.query Sample.db)) by (rewrite E; now left).
  destruct (credentials_rows_sound Sample.db r Hr)
    as (p & e & _ & _ & _ & _ & _ & Hd & Hpos & _).
  exists (current_date Sample.db - e)%Z. auto.
Defined.

(** ** What every finding holds *)

Lemma remove_null_In {A B} (g : A -> option B) (l : list A) (x : B) :
  In x (Sql.array_remove_null (map g l)) <->
  exists r, In r l /\ g r = Some x.
Proof.
  induction l as [|a l IH]; simpl.
  - split; [contradiction | intros (r & [] & _)].
  - destruct (g a) as [b|] eqn:E; simpl; rewrite IH; split.
    + intros [->|(r & Hr & Hg)]; [exists a; auto | exists r; auto].
    + intros (r & [->|Hr] & Hg); [left; congruence | right; exists r; auto].
    + intros (r & Hr & Hg). exists r. auto.
    + intros (r & [->|Hr] & Hg); [congruence | exists r; auto].
Qed.

Lemma temporal_anomaly_defined (c : Claims.row) :
  Sql.holds (Temporal.where_clause c) = true ->
  Temporal.anomaly_type_of c <> None.
Proof.
  unfold Temporal.where_clause, Temporal.anomaly_type_of.
  rewrite holds_or3, holds_and3. intros [H|[_ H]].
  - rewrite H. discriminate.
  - rewrite H.
    destruct (Sql.holds
                (Sql.cmp Z.ltb (Claims.submission_date c)
                   (Claims.service_date c)));
      simpl; discriminate.
Qed.

(** X20: every finding a check hands to the audit log has a description,
    never NULL, and a severity the check can give: HIGH or MEDIUM for
    completeness, CRITICAL or HIGH for discrepancies, HIGH for temporal
    anomalies, MEDIUM for duplicates, CRITICAL for credentials.  No finding
    is LOW. *)
Theorem findings_well_formed (db : database) (k : check_key) (f : Finding) :
  In f (rule_findings k db) ->
  issue_description f <> None
  /\ severity f <> LOW
  /\ match k with
     | patient_completeness => severity f = HIGH \/ severity f = MEDIUM
     | claims_discrepancies => severity f = CRITICAL \/ severity f = HIGH
     | temporal_anomalies => severity f = HIGH
     | duplicate_records => severity f = MEDIUM
     | provider_credentials => severity f = CRITICAL
     end.
Proof.
  destruct k; simpl; intros Hf.
  - apply in_map_iff in Hf. destruct Hf as (r & <- & _).
    unfold Completeness.finding. simpl.
    destruct (2 <? _)%nat; repeat split; auto; discriminate.
  - apply in_map_iff in Hf. destruct Hf as (r & <- & _).
    unfold Discrepancies.finding. simpl.
    destruct (Discrepancies.exceeds_1000 db r);
      repeat split; auto; discriminate.
  - apply in_map_iff in Hf. destruct Hf as (r & <- & Hr).
    apply temporal_query_In in Hr. destruct Hr as (c & _ & Hw & ->).
    simpl. repeat split; [|discriminate].
    now apply temporal_anomaly_defined.
  - apply remove_null_In in Hf. destruct Hf as (r & _ & Hg).
    unfold Duplicates.finding in Hg.
    destruct (Duplicates.patient_ids r); [discriminate|].
    inversion Hg; subst. simpl. repeat split; discriminate.
  - apply in_map_iff in Hf. destruct Hf as (r & <- & _).
    simpl. repeat split; discriminate.
Qed.

Lemma findings_well_formed_witness :
  match rule_findings temporal_anomalies Sample.db with
  | f :: _ => issue_description f <> None /\ severity f = HIGH
  | [] => False
  end.
Proof.
  destruct (rule_findings temporal_anomalies Sample.db) as [|f l] eqn:E;
    [vm_compute in E; discriminate E|].
  assert (Hf : In f (rule_findings temporal_anomalies Sample.db))
    by (rewrite E; now left).
  destruct (findings_well_formed Sample.db temporal_anomalies f Hf)
    as (Hd & _ & Hs).
  split; [exact Hd | exact Hs].
Defined.

(** X21: every finding is about a record of the table its check reads: its
    record_id is the identifier of a patient record for the completeness and
    duplicate checks, of a claim for the discrepancy and temporal checks,
    and of a provider for the credential check. *)
Theorem findings_refer_to_records
        (db : database) (k : check_key) (f : Finding) :
  In f (rule_findings k db) ->
  match k with
  | patient_completeness | duplicate_records =>
      In (record_id f)
         (map PatientRecords.patient_id (patient_records db))
  | claims_discrepancies | temporal_anomalies =>
      In (record_id f) (map Claims.claim_id (claims db))
  | provider_credentials =>
      In (record_id f) (map Providers.provider_id (providers db))
  end.
Proof.
  destruct k; simpl; intros Hf.
  - apply in_map_iff in Hf. destruct Hf as (r & <- & Hr).
    apply completeness_query_In in Hr. destruct Hr as (p & Hp & _ & ->).
    simpl. now apply in_map.
  - apply in_map_iff in Hf. destruct Hf as (r & <- & Hr).
    apply discrepancies_query_In in Hr. destruct Hr as (t & Ht & _ & ->).
    unfold Discrepancies.claim_line_totals, group_by in Ht.
    rewrite map_map in Ht. apply in_map_iff in Ht.
    destruct Ht as (rep & <- & Hrep).
    apply representatives_incl, left_join_fst in Hrep.
    simpl. now apply in_map.
  - apply in_map_iff in Hf. destruct Hf as (r & <- & Hr).
    apply temporal_query_In in Hr. destruct Hr as (c & Hc & _ & ->).
    simpl. now apply in_map.
  - apply remove_null_In in Hf. destruct Hf as (r & Hr & Hg).
    apply duplicates_query_In in Hr. destruct Hr as (g & Hgin & _ & ->).
    unfold Duplicates.finding in Hg. simpl in Hg.
    destruct (snd g) as [|m ms] eqn:Eg; [discriminate|].
    simpl in Hg. inversion Hg; subst. simpl.
    apply in_map.
    apply (duplicates_group_members db g m Hgin). rewrite Eg. now left.
  - apply in_map_iff in Hf. destruct Hf as (r & <- & Hr).
    apply credentials_query_In in Hr. destruct Hr as (p & Hp & _ & ->).
    simpl. now apply in_map.
Qed.

Lemma findings_refer_to_records_witness :
  match rule_findings duplicate_records Sample.db with
  | f :: _ =>
      In (record_id f)
         (map PatientRecords.patient_id (patient_records Sample.db))
  | [] => False
  end.
Proof.
  destruct (rule_findings duplicate_records Sample.db) as [|f l] eqn:E;
    [vm_compute in E; discriminate E|].
  assert (Hf : In f (rule_findings duplicate_records Sample.db))
    by (rewrite E; now left).
  exact (findings_refer_to_records Sample.db duplicate_records f Hf).
Defined.
